(** * The quest execution pipeline of the quest-system package

    A shallow embedding of the TypeScript sources

      - [shared/types.ts]
      - [cache/SemanticCacheService.ts]
      - [db/KnowledgeBaseService.ts], [db/QuestRepository.ts]
      - [learning/LearningEngineService.ts]
      - [core/GeminiDispatcher.ts], [core/TaskPyramid.ts]
      - [core/LevelCoordinator.ts], [core/QuestManager.ts]

    Conventions of the embedding.

    - A JavaScript [number] is an IEEE-754 binary64 value: Rocq's primitive
      [float], with the primitive operations ([+], [*], [/], [sqrt], [<], [=]).
    - An [async] method is a function from the state of the process (the four
      SQLite tables and a counter of external effects) to a completion
      (resolved value or rejection) and a new state.  An [await]ed rejection
      and a [throw] are the same completion, [Threw], carrying the message of
      the [Error].
    - Everything the sources import from outside the repository (the model
      client, [uuid], [node:crypto], the system clock, [JSON.parse] and
      [JSON.stringify] on task lists) is a field of an environment record
      [Env].  Each external call consumes one tick of the state's counter and
      the environment answers as a function of that tick, so that a clock may
      advance and a model may answer the same prompt differently.
    - A table is the list of its rows in scan (rowid) order.  A placeholder of
      a statement holds [None] (SQL NULL) when no parameter is bound to it or
      when the bound JavaScript value is [null] or [undefined].  The database
      files are assumed readable and writable (no I/O error); constraint
      violations on NOT NULL columns are modelled.  Values of [uuidv4] are
      assumed not to collide, so that the PRIMARY KEY of the tables keyed by
      them never rejects an INSERT.
    - An ISO-8601 timestamp string is identified with its number of
      milliseconds since the epoch ([new Date(s).getTime()]).
    - A string is the sequence of the bytes of its UTF-8 encoding, which is
      what SQLite stores and compares; the case of letters is the case of
      the 26 letters of ASCII.  A LIMIT is an integer. *)

From Stdlib Require Import List String Ascii ZArith Bool Lia Floats.
From Stdlib Require Import DecimalString Sorting.Sorted Sorting.Permutation.
Import ListNotations.

Local Open Scope string_scope.
Local Open Scope Z_scope.

(* ================================================================== *)
(** * JavaScript primitives used by the sources *)
(* ================================================================== *)

Module Js.

(** How an evaluation ends: a value, or a thrown [Error] with its
    [message]. *)
Inductive Completion (A : Type) : Type :=
| Returned (value : A)
| Threw (message : string).
Arguments Returned {A} value.
Arguments Threw {A} message.

(** [s.toLowerCase()].  Strings are sequences of bytes (UTF-8); the ASCII
    capital letters are mapped to small ones and every other byte is kept.
    No character outside ASCII has the letters of "success" as its lower
    case, so the test of [dispatchAtomic] is not affected. *)
Definition lowerAscii (c : ascii) : ascii :=
  let n := nat_of_ascii c in
  if (Nat.leb 65 n && Nat.leb n 90)%bool then ascii_of_nat (n + 32) else c.

Fixpoint toLowerCase (s : string) : string :=
  match s with
  | EmptyString => EmptyString
  | String c rest => String (lowerAscii c) (toLowerCase rest)
  end.

(** [s.startsWith(needle)] *)
Fixpoint startsWith (s needle : string) {struct needle} : bool :=
  match needle, s with
  | EmptyString, _ => true
  | String _ _, EmptyString => false
  | String a needle', String b s' => (Ascii.eqb a b && startsWith s' needle')%bool
  end.

(** [s.includes(needle)] *)
Fixpoint includes (s needle : string) : bool :=
  (startsWith s needle
   || match s with
      | EmptyString => false
      | String _ rest => includes rest needle
      end)%bool.

(** Truthiness of a string that may be [null] or [undefined]. *)
Definition truthyString (s : option string) : bool :=
  match s with
  | Some (String _ _) => true
  | _ => false
  end.

(** [`${x}`] for a string that may be [undefined]. *)
Definition template (x : option string) : string :=
  match x with
  | Some s => s
  | None => "undefined"
  end.

(** [x || ''] for a string that may be [undefined]. *)
Definition orEmpty (x : option string) : string :=
  match x with
  | Some s => s
  | None => ""
  end.

(** [xs.join(sep)] *)
Fixpoint join (sep : string) (xs : list string) : string :=
  match xs with
  | [] => ""
  | [x] => x
  | x :: rest => x ++ sep ++ join sep rest
  end.

(** [JSON.parse(JSON.stringify(x))] on one number of an array:
    [NaN] and the infinities are written as [null], which reads back as
    [null] and counts as [+0] in arithmetic; [-0] is written as [0];
    every other number is written with digits that read back as itself. *)
Definition jsonNumber (x : float) : float :=
  if (PrimFloat.is_nan x || PrimFloat.is_infinity x || PrimFloat.is_zero x)%bool
  then 0%float else x.

Definition jsonNumbers (v : list float) : list float := map jsonNumber v.

End Js.

Export Js (Completion, Returned, Threw).

(* ================================================================== *)
(** * shared/types.ts *)
(* ================================================================== *)

Record QuestConfig : Type := {
  title : string;
  description : string
}.

Inductive QuestStatus : Type := pending | executing | completed | failed.

Inductive QuestLevel : Type :=
  level_none | level_strategic | level_tactical | level_operational | level_atomic.

Record Quest : Type := {
  quest_id : string;
  config : QuestConfig;
  status : QuestStatus;
  currentLevel : QuestLevel;
  createdAt : Z;
  updatedAt : Z;
  quest_error : option string
}.

Record OperationalTask : Type := {
  task : string;
  suggestedTool : string
}.

Record AtomicResult : Type := {
  result_task : OperationalTask;
  outcome : string;
  nextState : option string
}.

Record KnowledgeItem : Type := {
  item_id : string;
  content : string;
  tags : option (list string);
  source : option string;
  item_timestamp : Z
}.

(** A row of [knowledge_items]: [tags] is the JSON text of the tag list. *)
Record KnowledgeRow : Type := {
  row_id : string;
  row_content : string;
  row_tags : option string;
  row_source : option string;
  row_timestamp : Z
}.

(** A row of [semantic_cache].  [semanticVector] holds what
    [JSON.parse] reads back from the stored text. *)
Record CacheEntry : Type := {
  queryHash : string;
  semanticVector : option (list float);
  response : string;
  timestamp : Z;
  ttl : option Z
}.

Inductive LogStatus : Type := success | failure.

Record ToolCall : Type := {
  tool : string;
  args : string
}.

Record ExecutionLog : Type := {
  log_id : string;
  questId : string;
  level : string;
  input : string;
  output : string;
  durationMs : Z;
  log_status : LogStatus;
  log_timestamp : Z;
  toolCalls : option (list ToolCall);
  log_error : option string
}.

(** [Omit<ExecutionLog, 'id' | 'timestamp'>] *)
Record ExecutionLogInput : Type := {
  in_questId : string;
  in_level : string;
  in_input : string;
  in_output : string;
  in_durationMs : Z;
  in_status : LogStatus;
  in_toolCalls : option (list ToolCall);
  in_error : option string
}.

(** [Omit<KnowledgeItem, 'id' | 'timestamp'>] *)
Record KnowledgeInput : Type := {
  in_content : string;
  in_tags : option (list string);
  in_source : option string
}.

(** A chunk of the stream of [sendMessageStream]. *)
Record Chunk : Type := {
  chunk_type : string;
  chunk_value : string
}.

(* ================================================================== *)
(** * The process state, the environment and asynchronous methods *)
(* ================================================================== *)

Record World : Type := {
  quests : list Quest;
  knowledge_items : list KnowledgeRow;
  semantic_cache : list CacheEntry;
  execution_logs : list ExecutionLog;
  tick : nat
}.

Definition emptyWorld : World :=
  {| quests := []; knowledge_items := []; semantic_cache := [];
     execution_logs := []; tick := 0 |}.

Record Env : Type := {
  (** [Date.now()], [new Date().getTime()], [new Date().toISOString()] *)
  clock : nat -> Z;
  (** [uuidv4()] *)
  uuidv4 : nat -> string;
  (** [createHash('sha256').update(query).digest('hex')] *)
  sha256hex : string -> string;
  (** [geminiClient.embedContent(query)] *)
  embedContent : nat -> string -> Completion (option (list float));
  (** [geminiClient.sendMessageStream(prompt, signal, sessionId)], drained *)
  sendMessageStream : nat -> string -> string -> Completion (list Chunk);
  (** [JSON.parse(response) as OperationalTask[]]; [None] is a SyntaxError *)
  parseTasks : string -> option (list OperationalTask);
  (** [JSON.stringify] on a task list and on a result list *)
  stringifyTasks : list OperationalTask -> string;
  stringifyResults : list AtomicResult -> string;
  (** [JSON.stringify] and [JSON.parse] on the tags of a knowledge item *)
  stringifyTags : list string -> string;
  parseTags : string -> list string
}.

Definition Async (A : Type) : Type := World -> Completion A * World.

Module AsyncNotations.

Definition ret {A} (a : A) : Async A := fun w => (Returned a, w).

Definition throw {A} (message : string) : Async A := fun w => (Threw message, w).

Definition bind {A B} (m : Async A) (k : A -> Async B) : Async B :=
  fun w =>
    match m w with
    | (Returned a, w') => k a w'
    | (Threw e, w') => (Threw e, w')
    end.

(** [try { m } catch (e) { ... }]: the completion of [m] as a value. *)
Definition attempt {A} (m : Async A) : Async (Completion A) :=
  fun w => let (c, w') := m w in (Returned c, w').

(** One external effect: the current tick is used and advanced. *)
Definition external {A} (f : nat -> A) : Async A :=
  fun w =>
    (Returned (f (tick w)),
     {| quests := quests w; knowledge_items := knowledge_items w;
        semantic_cache := semantic_cache w;
        execution_logs := execution_logs w; tick := S (tick w) |}).

(** An external effect that may reject. *)
Definition externalCall {A} (f : nat -> Completion A) : Async A :=
  bind (external f) (fun c w => (c, w)).

Declare Scope async_scope.
Delimit Scope async_scope with async.
Notation "x <- m ;; k" := (bind m (fun x => k))
  (at level 100, m at next level, right associativity) : async_scope.
Notation "m ;;; k" := (bind m (fun _ => k))
  (at level 100, right associativity) : async_scope.

End AsyncNotations.

Import AsyncNotations.
Local Open Scope async_scope.

(* ================================================================== *)
(** * SQLite: parameters and constraints *)
(* ================================================================== *)

Module Sqlite.

(** A NOT NULL column refuses a placeholder that holds NULL. *)
Definition notNull {A} (column : string) (v : option A) : Completion A :=
  match v with
  | Some a => Returned a
  | None => Threw ("SQLITE_CONSTRAINT: NOT NULL constraint failed: " ++ column)
  end.

(** [column = ?] on a text column: a comparison with NULL is never true. *)
Definition eqParam (column : string) (param : option string) : bool :=
  match param with
  | Some p => String.eqb column p
  | None => false
  end.

(** [column LIKE ?], as the built-in [like] function of SQLite evaluates
    it ([likeFunc] and [patternCompare] of SQLite's func.c).

    Both operands are read as NUL-terminated UTF-8 texts: what follows the
    first NUL byte takes no part in the comparison. *)
Fixpoint cString (bytes : list ascii) : list ascii :=
  match bytes with
  | [] => []
  | b :: rest => if Ascii.eqb b Ascii.zero then [] else b :: cString rest
  end.

(** [sqlite3Utf8Trans1]: the payload bits of a lead byte (0xC0 to 0xFF). *)
Definition utf8Trans1 (lead : N) : N :=
  (if lead <? 0xE0 then lead - 0xC0
   else if lead <? 0xF0 then lead - 0xE0
   else if lead <? 0xF8 then lead - 0xF0
   else if lead <? 0xFC then lead - 0xF8
   else if lead =? 0xFD then 1
   else 0)%N.

(** A character that is read from more than one byte and comes out below
    0x80, as a surrogate or as 0xFFFE or 0xFFFF is replaced by 0xFFFD. *)
Definition utf8Replaced (c : N) : N :=
  (if (c <? 0x80) || (N.land c 0xFFFFF800 =? 0xD800)
      || (N.land c 0xFFFFFFFE =? 0xFFFE)
   then 0xFFFD else c)%N%bool.

(** [Utf8Read], repeated to the end of the text: a byte below 0xC0 is a
    character of its own; a byte from 0xC0 on is read together with every
    continuation byte (10xxxxxx) that follows it, in 32-bit arithmetic.
    [pending] is the character that is being read. *)
Fixpoint utf8Read (pending : option N) (bytes : list N) : list N :=
  match bytes with
  | [] =>
      match pending with
      | Some c => [utf8Replaced c]
      | None => []
      end
  | b :: rest =>
      let fresh :=
        (if 0xC0 <=? b then utf8Read (Some (utf8Trans1 b)) rest
         else b :: utf8Read None rest)%N in
      match pending with
      | Some c =>
          if (N.land b 0xC0 =? 0x80)%N
          then utf8Read (Some ((N.shiftl c 6 + N.land b 0x3F) mod 0x100000000)%N)
                        rest
          else utf8Replaced c :: fresh
      | None => fresh
      end
  end.

(** The characters of a text operand. *)
Definition characters (s : string) : list N :=
  utf8Read None (map N_of_ascii (cString (list_ascii_of_string s))).

(** [sqlite3Tolower] on a character below 0x80. *)
Definition toLower (c : N) : N :=
  (if (65 <=? c) && (c <=? 90) then c + 32 else c)%N%bool.

(** A character of the pattern that is not [%] matches a character of the
    text when they are the same character, or both are ASCII and the same
    letter up to case, or the character of the pattern is [_]. *)
Definition matchesOne (p c : N) : bool :=
  ((p =? c) || ((p <? 0x80) && (c <? 0x80) && (toLower p =? toLower c))
   || (p =? 95))%N%bool.

(** [patternCompare]: [%] (37) matches any run of characters, [_] (95) any
    one character, every other character itself up to ASCII case. *)
Fixpoint patternCompare (pattern : list N) : list N -> bool :=
  match pattern with
  | [] => fun s => match s with [] => true | _ => false end
  | p :: pattern' =>
      if (p =? 37)%N then
        fix star (s : list N) : bool :=
          (patternCompare pattern' s
           || match s with
              | [] => false
              | _ :: s' => star s'
              end)%bool
      else
        fun s => match s with
                 | [] => false
                 | c :: s' => (matchesOne p c && patternCompare pattern' s')%bool
                 end
  end.

(** The value of [column LIKE pattern] where it is a value: a NULL column
    matches nothing. *)
Definition like (column : option string) (pattern : string) : bool :=
  match column with
  | Some s => patternCompare (characters pattern) (characters s)
  | None => false
  end.

(** Before it compares anything, [like] raises an error when the pattern
    is longer than SQLITE_MAX_LIKE_PATTERN_LENGTH (50000) bytes. *)
Definition likePatternTooComplex (pattern : string) : bool :=
  (50000 <? N.of_nat (String.length pattern))%N.

Definition patternTooComplex : string :=
  "SQLITE_ERROR: LIKE or GLOB pattern too complex".

End Sqlite.


(** Assignments to one table of the state. *)
Definition withKnowledge (rows : list KnowledgeRow) (w : World) : World :=
  {| quests := quests w; knowledge_items := rows;
     semantic_cache := semantic_cache w;
     execution_logs := execution_logs w; tick := tick w |}.

Definition withCache (rows : list CacheEntry) (w : World) : World :=
  {| quests := quests w; knowledge_items := knowledge_items w;
     semantic_cache := rows;
     execution_logs := execution_logs w; tick := tick w |}.

Definition withLogs (rows : list ExecutionLog) (w : World) : World :=
  {| quests := quests w; knowledge_items := knowledge_items w;
     semantic_cache := semantic_cache w;
     execution_logs := rows; tick := tick w |}.

Definition withQuests (rows : list Quest) (w : World) : World :=
  {| quests := rows; knowledge_items := knowledge_items w;
     semantic_cache := semantic_cache w;
     execution_logs := execution_logs w; tick := tick w |}.

(* ================================================================== *)
(** * cache/SemanticCacheService.ts *)
(* ================================================================== *)

Module SemanticCacheService.

Definition generateHash (E : Env) (query : string) : string := sha256hex E query.

(** [vec1.reduce((sum, val, i) => sum + val * vec2[i], 0)], from index [i]
    with accumulator [sum]; [vec2[i]] past the end is [undefined] and the
    product is [NaN]. *)
Fixpoint dotProductFrom (i : nat) (sum : float) (vec1 vec2 : list float) : float :=
  match vec1 with
  | [] => sum
  | val :: rest =>
      dotProductFrom (S i) (sum + val * nth i vec2 PrimFloat.nan)%float rest vec2
  end.

(** [vec.reduce((sum, val) => sum + val * val, 0)] *)
Definition sumOfSquares (vec : list float) : float :=
  fold_left (fun sum val => (sum + val * val)%float) vec 0%float.

Definition cosineSimilarity (vec1 vec2 : list float) : float :=
  let dotProduct := dotProductFrom 0 0%float vec1 vec2 in
  let magnitude1 := PrimFloat.sqrt (sumOfSquares vec1) in
  let magnitude2 := PrimFloat.sqrt (sumOfSquares vec2) in
  if (PrimFloat.eqb magnitude1 0 || PrimFloat.eqb magnitude2 0)%bool
  then 0%float
  else (dotProduct / (magnitude1 * magnitude2))%float.

(** The object that
    [SELECT response, timestamp, ttl, semanticVector FROM semantic_cache]
    yields for a row. *)
Record SelectedRow : Type := {
  sel_response : string;
  sel_timestamp : Z;
  sel_ttl : option Z;
  sel_semanticVector : option (list float)
}.

Definition selectRow (r : CacheEntry) : SelectedRow :=
  {| sel_response := response r; sel_timestamp := timestamp r;
     sel_ttl := ttl r; sel_semanticVector := semanticVector r |}.

(** [row.queryHash] on such an object: the column is not selected, the
    property is [undefined]. *)
Definition sel_queryHash (row : SelectedRow) : option string := None.

(** [DELETE FROM semantic_cache WHERE queryHash = ?] *)
Definition deleteWhereQueryHash (param : option string) : Async unit :=
  fun w =>
    (Returned tt,
     withCache
       (filter (fun r => negb (Sqlite.eqParam (queryHash r) param))
               (semantic_cache w)) w).

(** [row.ttl && now - entryTime > row.ttl] *)
Definition expired (now : Z) (row : SelectedRow) : bool :=
  match sel_ttl row with
  | None => false
  | Some t => (negb (t =? 0) && (t <? now - sel_timestamp row))%bool
  end.

(** The [for (const row of rows)] loop of [get]. *)
Fixpoint scan (E : Env) (queryEmbedding : list float) (rows : list SelectedRow)
    (bestMatch : option string) (highestSimilarity : float)
    : Async (option string) :=
  match rows with
  | [] => ret bestMatch
  | row :: rest =>
      now <- external (clock E) ;;
      if expired now row then
        deleteWhereQueryHash (sel_queryHash row) ;;;
        scan E queryEmbedding rest bestMatch highestSimilarity
      else
        match sel_semanticVector row with
        | Some cachedEmbedding =>
            let similarity := cosineSimilarity queryEmbedding cachedEmbedding in
            if PrimFloat.ltb highestSimilarity similarity
            then scan E queryEmbedding rest (Some (sel_response row)) similarity
            else scan E queryEmbedding rest bestMatch highestSimilarity
        | None => scan E queryEmbedding rest bestMatch highestSimilarity
        end
  end.

(** The default [0.8], as the nearest binary64 value. *)
Definition defaultSimilarityThreshold : float := 0x1.999999999999ap-1%float.

Definition get (E : Env) (query : string) (similarityThreshold : float)
    : Async (option string) :=
  queryEmbedding <- externalCall (fun n => embedContent E n query) ;;
  match queryEmbedding with
  | None => ret None
  | Some queryEmbedding =>
      fun w =>
        scan E queryEmbedding (map selectRow (semantic_cache w))
             None similarityThreshold w
  end.

(** [INSERT OR REPLACE INTO semantic_cache (queryHash, semanticVector,
    response, timestamp, ttl) VALUES (?, ?, ?, ?, ?)]: the five arguments
    are what the five placeholders hold.  A row with the same key is
    removed and the new row gets the next rowid. *)
Definition insertOrReplace (queryHash_ : string)
    (semanticVector_ : option (list float)) (response_ : option string)
    (timestamp_ : option Z) (ttl_ : option Z) : Async unit :=
  fun w =>
    match Sqlite.notNull "semantic_cache.response" response_,
          Sqlite.notNull "semantic_cache.timestamp" timestamp_ with
    | Returned r, Returned t =>
        (Returned tt,
         withCache
           (filter (fun row => negb (String.eqb (queryHash row) queryHash_))
                   (semantic_cache w)
            ++ [{| queryHash := queryHash_; semanticVector := semanticVector_;
                   response := r; timestamp := t; ttl := ttl_ |}]) w)
    | Threw e, _ => (Threw e, w)
    | _, Threw e => (Threw e, w)
    end.

(** [set(query, response, _ttl)]: four parameters are bound to the five
    placeholders, the fifth ([ttl]) holds NULL. *)
Definition set (E : Env) (query response : string) (_ttl : option Z) : Async unit :=
  let queryHash := generateHash E query in
  timestamp <- external (clock E) ;;
  queryEmbedding <- externalCall (fun n => embedContent E n query) ;;
  let semanticVector := option_map Js.jsonNumbers queryEmbedding in
  insertOrReplace queryHash semanticVector (Some response) (Some timestamp) None.

Definition invalidate (E : Env) (query : string) : Async unit :=
  deleteWhereQueryHash (Some (generateHash E query)).

End SemanticCacheService.

(* ================================================================== *)
(** * db/KnowledgeBaseService.ts *)
(* ================================================================== *)

Module KnowledgeBaseService.

(** [INSERT INTO knowledge_items (id, content, tags, source, timestamp)
    VALUES (?, ?, ?, ?, ?)]: the arguments are what the placeholders hold;
    [content] and [timestamp] are NOT NULL columns. *)
Definition insert (id_ : string) (content_ tags_ source_ : option string)
    (timestamp_ : option Z) : Async unit :=
  fun w =>
    match Sqlite.notNull "knowledge_items.content" content_,
          Sqlite.notNull "knowledge_items.timestamp" timestamp_ with
    | Returned c, Returned t =>
        (Returned tt,
         withKnowledge
           (knowledge_items w
            ++ [{| row_id := id_; row_content := c; row_tags := tags_;
                   row_source := source_; row_timestamp := t |}]) w)
    | Threw e, _ => (Threw e, w)
    | _, Threw e => (Threw e, w)
    end.

(** [addKnowledge(item)]: three parameters ([id], [content], [tags]) are
    bound to the five placeholders; [source] and [timestamp] hold NULL. *)
Definition addKnowledge (E : Env) (item : KnowledgeInput) : Async KnowledgeItem :=
  id <- external (uuidv4 E) ;;
  timestamp <- external (clock E) ;;
  let newItem :=
    {| item_id := id; content := in_content item; tags := in_tags item;
       source := in_source item; item_timestamp := timestamp |} in
  insert (item_id newItem) (Some (content newItem))
         (option_map (stringifyTags E) (tags newItem)) None None ;;;
  ret newItem.

(** [row.tags ? JSON.parse(row.tags) : undefined] *)
Definition rowToItem (E : Env) (row : KnowledgeRow) : KnowledgeItem :=
  {| item_id := row_id row; content := row_content row;
     tags := if Js.truthyString (row_tags row)
             then option_map (parseTags E) (row_tags row) else None;
     source := row_source row; item_timestamp := row_timestamp row |}.

(** [LIMIT ?]: a negative limit is no limit. *)
Definition limitRows {A} (limit : Z) (rows : list A) : list A :=
  if limit <? 0 then rows else firstn (Z.to_nat limit) rows.

(** [SELECT * FROM knowledge_items WHERE content LIKE ? OR tags LIKE ?
    LIMIT ?] with both patterns [`%${query}%`].  The WHERE clause is
    evaluated on the rows in scan order, [content LIKE ?] first, unless the
    limit is 0, in which case no row is read; the first evaluation fails the
    statement when the pattern is too long, and the callback then rejects
    with that error. *)
Definition retrieveKnowledge (E : Env) (query : string) (limit : Z)
    : Async (list KnowledgeItem) :=
  fun w =>
    let pattern := "%" ++ query ++ "%" in
    let rowTested :=
      (negb (limit =? 0)
       && match knowledge_items w with [] => false | _ :: _ => true end)%bool in
    if (rowTested && Sqlite.likePatternTooComplex pattern)%bool
    then (Threw Sqlite.patternTooComplex, w)
    else
      let rows :=
        limitRows limit
          (filter (fun row => (Sqlite.like (Some (row_content row)) pattern
                               || Sqlite.like (row_tags row) pattern)%bool)
                  (knowledge_items w)) in
      (Returned (map (rowToItem E) rows), w).

Definition defaultLimit : Z := 10.

(** [UPDATE knowledge_items SET content = ?, tags = ?, source = ?,
    timestamp = ? WHERE id = ?], all five parameters bound. *)
Definition updateKnowledge (E : Env) (item : KnowledgeItem) : Async unit :=
  timestamp <- external (clock E) ;;
  fun w =>
    (Returned tt,
     withKnowledge
       (map (fun row =>
               if String.eqb (row_id row) (item_id item)
               then {| row_id := row_id row; row_content := content item;
                       row_tags := option_map (stringifyTags E) (tags item);
                       row_source := if Js.truthyString (source item)
                                     then source item else None;
                       row_timestamp := timestamp |}
               else row)
            (knowledge_items w)) w).

Definition deleteKnowledge (id : string) : Async unit :=
  fun w =>
    (Returned tt,
     withKnowledge
       (filter (fun row => negb (String.eqb (row_id row) id))
               (knowledge_items w)) w).

End KnowledgeBaseService.

(* ================================================================== *)
(** * learning/LearningEngineService.ts *)
(* ================================================================== *)

Module LearningEngineService.

(** [logExecution(log)]: all ten placeholders of the INSERT are bound, and
    the NOT NULL columns receive values that are never [null]. *)
Definition logExecution (E : Env) (log : ExecutionLogInput) : Async ExecutionLog :=
  id <- external (uuidv4 E) ;;
  timestamp <- external (clock E) ;;
  let newLog :=
    {| log_id := id; questId := in_questId log; level := in_level log;
       input := in_input log; output := in_output log;
       durationMs := in_durationMs log; log_status := in_status log;
       log_timestamp := timestamp; toolCalls := in_toolCalls log;
       log_error := in_error log |} in
  fun w =>
    (Returned newLog,
     withLogs
       (execution_logs w
        ++ [{| log_id := log_id newLog; questId := questId newLog;
               level := level newLog; input := input newLog;
               output := output newLog; durationMs := durationMs newLog;
               log_status := log_status newLog;
               log_timestamp := log_timestamp newLog;
               toolCalls := toolCalls newLog;
               log_error := if Js.truthyString (log_error newLog)
                            then log_error newLog else None |}]) w).


(** [SELECT * FROM execution_logs WHERE questId = ?], where [param] is what
    the placeholder holds. *)
Definition selectWhereQuestId (param : option string) : Async (list ExecutionLog) :=
  fun w =>
    (Returned (filter (fun row => Sqlite.eqParam (questId row) param)
                      (execution_logs w)), w).

(** [getLogsByQuestId(_questId)]: [db.all] receives the statement and the
    callback only; no parameter is bound to the placeholder. *)
Definition getLogsByQuestId (_questId : string) : Async (list ExecutionLog) :=
  selectWhereQuestId None.

End LearningEngineService.

(* ================================================================== *)
(** * core/GeminiDispatcher.ts *)
(* ================================================================== *)

Module GeminiDispatcher.

(** [for await (const chunk of result) if (chunk.type === 'content')
    fullResponse += chunk.value] *)
Fixpoint collectContent (fullResponse : string) (chunks : list Chunk) : string :=
  match chunks with
  | [] => fullResponse
  | chunk :: rest =>
      if String.eqb (chunk_type chunk) "content"
      then collectContent (fullResponse ++ chunk_value chunk) rest
      else collectContent fullResponse rest
  end.

Definition sendMessage (E : Env) (quest : Quest) (prompt : string) : Async string :=
  cachedResponse <-
    SemanticCacheService.get E prompt
      SemanticCacheService.defaultSimilarityThreshold ;;
  if Js.truthyString cachedResponse then ret (Js.orEmpty cachedResponse)
  else
    chunks <- externalCall (fun n => sendMessageStream E n prompt (quest_id quest)) ;;
    let fullResponse := collectContent "" chunks in
    SemanticCacheService.set E prompt fullResponse None ;;;
    ret fullResponse.

Definition newline : string := String (ascii_of_nat 10) EmptyString.
Definition quote : string := String (ascii_of_nat 34) EmptyString.

Definition dispatchStrategic (E : Env) (quest : Quest) (description_ : string)
    : Async string :=
  relevantKnowledge <- KnowledgeBaseService.retrieveKnowledge E description_ 5 ;;
  let knowledgeContext :=
    Js.join (newline ++ newline) (map content relevantKnowledge) in
  let prompt :=
    "Design the architecture for: " ++ description_ ++ newline ++ newline
    ++ "Relevant Knowledge:" ++ newline ++ knowledgeContext in
  sendMessage E quest prompt.

Definition tacticalPrompt (strategicPlan : option string) : string :=
  "Based on the following strategic plan, break it down into detailed tactical milestones and sub-tasks. For each milestone, list the key objectives. Format the output as a markdown list."
  ++ newline ++ newline ++ "Strategic Plan:" ++ newline
  ++ quote ++ Js.template strategicPlan ++ quote.

Definition dispatchTactical (E : Env) (quest : Quest) (strategicPlan : option string)
    : Async string :=
  sendMessage E quest (tacticalPrompt strategicPlan).

Definition operationalPrompt (tacticalPlan : option string) : string :=
  "Based on the following tactical plan, break it down into concrete, actionable operational tasks. For each task, suggest a command-line tool that could be used to execute it (e.g., 'writeFile', 'runShellCommand', 'replace'). Format each task as a JSON object with 'task' and 'suggestedTool' keys, and return a JSON array of these objects."
  ++ newline ++ newline ++ "Tactical Plan:" ++ newline
  ++ quote ++ Js.template tacticalPlan ++ quote.

Definition dispatchOperational (E : Env) (quest : Quest) (tacticalPlan : option string)
    : Async (list OperationalTask) :=
  response <- sendMessage E quest (operationalPrompt tacticalPlan) ;;
  match parseTasks E response with
  | Some tasks => ret tasks
  | None => ret []
  end.

Definition atomicPrompt (task_ : OperationalTask) : string :=
  "For the following operational task, generate the specific command to be executed. If the task is to write code, generate the code. If it is a shell command, generate the command. Only output the raw command or code, nothing else."
  ++ newline ++ newline ++ "Operational Task:" ++ newline
  ++ quote ++ task task_ ++ quote.

Definition dispatchAtomic (E : Env) (quest : Quest) (task_ : OperationalTask)
    : Async AtomicResult :=
  outcome_ <- sendMessage E quest (atomicPrompt task_) ;;
  let nextState_ :=
    if Js.includes (Js.toLowerCase outcome_) "success"
    then "done" else "operational" in
  ret {| result_task := task_; outcome := outcome_; nextState := Some nextState_ |}.

End GeminiDispatcher.

(* ================================================================== *)
(** * core/TaskPyramid.ts *)
(* ================================================================== *)

(** The interface of [TaskPyramid] that [LevelCoordinator.coordinate] uses.
    The coordinator passes its local variables with a non-null assertion
    ([strategicPlan!]), which is erased at run time: an argument may be
    [undefined]. *)
Record TaskPyramid : Type := {
  quest : Quest;
  executeStrategicLevel : Async string;
  executeTacticalLevel : option string -> Async string;
  executeOperationalLevel : option string -> Async (list OperationalTask);
  executeAtomicLevel : option (list OperationalTask) -> Async (list AtomicResult)
}.

Module TaskPyramidImpl.

(** [for (const task of operationalTasks) results.push(await
    dispatcher.dispatchAtomic(task))] *)
Fixpoint atomicLoop (E : Env) (quest_ : Quest) (operationalTasks : list OperationalTask)
    (results : list AtomicResult) : Async (list AtomicResult) :=
  match operationalTasks with
  | [] => ret results
  | task_ :: rest =>
      atomicResult <- GeminiDispatcher.dispatchAtomic E quest_ task_ ;;
      atomicLoop E quest_ rest (results ++ [atomicResult])
  end.

(** [new TaskPyramid(quest, geminiClient, knowledgeBaseService,
    semanticCacheService)] *)
Definition new (E : Env) (quest_ : Quest) : TaskPyramid :=
  {| quest := quest_;
     executeStrategicLevel :=
       GeminiDispatcher.dispatchStrategic E quest_ (description (config quest_));
     executeTacticalLevel := GeminiDispatcher.dispatchTactical E quest_;
     executeOperationalLevel := GeminiDispatcher.dispatchOperational E quest_;
     executeAtomicLevel := fun operationalTasks =>
       match operationalTasks with
       | Some tasks => atomicLoop E quest_ tasks []
       | None => throw "operationalTasks is not iterable"
       end |}.

End TaskPyramidImpl.

(* ================================================================== *)
(** * core/LevelCoordinator.ts *)
(* ================================================================== *)

Module LevelCoordinator.

Inductive QuestState : Type := STRATEGIC | TACTICAL | OPERATIONAL | ATOMIC | DONE.

(** [QuestState[state].toLowerCase()] *)
Definition stateName (state : QuestState) : string :=
  match state with
  | STRATEGIC => "strategic"
  | TACTICAL => "tactical"
  | OPERATIONAL => "operational"
  | ATOMIC => "atomic"
  | DONE => "done"
  end.

(** The local variables of [coordinate] and the field [currentState]. *)
Record Locals : Type := {
  currentState : QuestState;
  strategicPlan : option string;
  tacticalPlan : option string;
  operationalTasks : option (list OperationalTask);
  atomicResults : option (list AtomicResult)
}.

Definition initialLocals : Locals :=
  {| currentState := STRATEGIC; strategicPlan := None; tacticalPlan := None;
     operationalTasks := None; atomicResults := None |}.

Definition withState (state : QuestState) (l : Locals) : Locals :=
  {| currentState := state; strategicPlan := strategicPlan l;
     tacticalPlan := tacticalPlan l; operationalTasks := operationalTasks l;
     atomicResults := atomicResults l |}.

Definition getLogInput (E : Env) (state : QuestState)
    (strategicPlan_ tacticalPlan_ : option string)
    (operationalTasks_ : option (list OperationalTask)) : string :=
  match state with
  | STRATEGIC => "Initial quest description"
  | TACTICAL => Js.orEmpty strategicPlan_
  | OPERATIONAL => Js.orEmpty tacticalPlan_
  | ATOMIC =>
      stringifyTasks E
        match operationalTasks_ with Some tasks => tasks | None => [] end
  | DONE => ""
  end.

(** The state chosen after the atomic level, from the last result. *)
Definition afterAtomic (results : list AtomicResult) : QuestState :=
  match rev results with
  | lastResult :: _ =>
      match nextState lastResult with
      | Some next =>
          if String.eqb next "done" then DONE
          else if String.eqb next "operational" then OPERATIONAL
          else DONE
      | None => DONE
      end
  | [] => DONE
  end.

(** The call that the [switch] makes in a state, as the [try] block sees it:
    its completion and, when it returned, the assignments that follow it
    (the local variable, [output], [this.currentState]). *)
Inductive LevelCall : Type :=
| StrategicCall (c : Completion string)
| TacticalCall (c : Completion string)
| OperationalCall (c : Completion (list OperationalTask))
| AtomicCall (c : Completion (list AtomicResult))
| NoCall.

Definition callLevel (taskPyramid : TaskPyramid) (l : Locals) : Async LevelCall :=
  match currentState l with
  | STRATEGIC =>
      c <- attempt (executeStrategicLevel taskPyramid) ;; ret (StrategicCall c)
  | TACTICAL =>
      c <- attempt (executeTacticalLevel taskPyramid (strategicPlan l)) ;;
      ret (TacticalCall c)
  | OPERATIONAL =>
      c <- attempt (executeOperationalLevel taskPyramid (tacticalPlan l)) ;;
      ret (OperationalCall c)
  | ATOMIC =>
      c <- attempt (executeAtomicLevel taskPyramid (operationalTasks l)) ;;
      ret (AtomicCall c)
  | DONE => ret NoCall
  end.

(** What the [try] and [catch] blocks leave behind. *)
Record Attempt : Type := {
  locals : Locals;
  att_status : LogStatus;
  att_error : option string;
  att_output : string
}.

Definition caught (l : Locals) (message : string) : Attempt :=
  {| locals := withState DONE l; att_status := failure;
     att_error := Some message; att_output := "Error: " ++ message |}.

Definition tryCatch (E : Env) (l : Locals) (call : LevelCall) : Attempt :=
  match call with
  | StrategicCall (Returned plan) =>
      {| locals :=
           {| currentState := TACTICAL; strategicPlan := Some plan;
              tacticalPlan := tacticalPlan l;
              operationalTasks := operationalTasks l;
              atomicResults := atomicResults l |};
         att_status := success; att_error := None; att_output := plan |}
  | TacticalCall (Returned plan) =>
      {| locals :=
           {| currentState := OPERATIONAL; strategicPlan := strategicPlan l;
              tacticalPlan := Some plan;
              operationalTasks := operationalTasks l;
              atomicResults := atomicResults l |};
         att_status := success; att_error := None; att_output := plan |}
  | OperationalCall (Returned tasks) =>
      {| locals :=
           {| currentState := ATOMIC; strategicPlan := strategicPlan l;
              tacticalPlan := tacticalPlan l;
              operationalTasks := Some tasks;
              atomicResults := atomicResults l |};
         att_status := success; att_error := None;
         att_output := stringifyTasks E tasks |}
  | AtomicCall (Returned results) =>
      {| locals :=
           {| currentState := afterAtomic results; strategicPlan := strategicPlan l;
              tacticalPlan := tacticalPlan l;
              operationalTasks := operationalTasks l;
              atomicResults := Some results |};
         att_status := success; att_error := None;
         att_output := stringifyResults E results |}
  | StrategicCall (Threw e) | TacticalCall (Threw e)
  | OperationalCall (Threw e) | AtomicCall (Threw e) => caught l e
  | NoCall =>
      {| locals := withState DONE l; att_status := success;
         att_error := None; att_output := "" |}
  end.

(** The entry that the [finally] block builds, from [this.currentState] and
    the local variables as they are when the block runs. *)
Definition logEntry (E : Env) (questId_ : string) (a : Attempt) (durationMs_ : Z)
    : ExecutionLogInput :=
  let l := locals a in
  {| in_questId := questId_;
     in_level := stateName (currentState l);
     in_input := getLogInput E (currentState l) (strategicPlan l)
                   (tacticalPlan l) (operationalTasks l);
     in_output := att_output a;
     in_durationMs := durationMs_;
     in_status := att_status a;
     in_toolCalls := None;
     in_error := att_error a |}.

(** One turn of the [while] loop: [try], [catch], [finally]. *)
Definition iteration (E : Env) (taskPyramid : TaskPyramid) (l : Locals) : Async Locals :=
  let questId_ := quest_id (quest taskPyramid) in
  startTime <- external (clock E) ;;
  call <- callLevel taskPyramid l ;;
  let a := tryCatch E l call in
  endTime <- external (clock E) ;;
  LearningEngineService.logExecution E (logEntry E questId_ a (endTime - startTime)) ;;;
  ret (locals a).

(** [while (this.currentState !== QuestState.DONE) ...]; [None] when the
    loop has not ended within [fuel] turns. *)
Fixpoint loop (fuel : nat) (E : Env) (taskPyramid : TaskPyramid) (l : Locals)
    : Async (option Locals) :=
  match currentState l with
  | DONE => ret (Some l)
  | _ =>
      match fuel with
      | O => ret None
      | S fuel' =>
          l' <- iteration E taskPyramid l ;;
          loop fuel' E taskPyramid l'
      end
  end.

(** [coordinate(taskPyramid)] on a new coordinator: the value returned is
    [atomicResults], which may be [undefined]. *)
Definition coordinate (fuel : nat) (E : Env) (taskPyramid : TaskPyramid)
    : Async (option (option (list AtomicResult))) :=
  final <- loop fuel E taskPyramid initialLocals ;;
  ret (option_map atomicResults final).

End LevelCoordinator.

(* ================================================================== *)
(** * db/QuestRepository.ts and core/QuestManager.ts *)
(* ================================================================== *)

Module QuestRepository.

(** [INSERT INTO quests ... ON CONFLICT(id) DO UPDATE SET config, status,
    current_level, updated_at, error]: an existing row keeps its
    [created_at]. *)
Fixpoint upsert (q : Quest) (rows : list Quest) : list Quest :=
  match rows with
  | [] => [q]
  | row :: rest =>
      if String.eqb (quest_id row) (quest_id q)
      then {| quest_id := quest_id row; config := config q; status := status q;
              currentLevel := currentLevel q; createdAt := createdAt row;
              updatedAt := updatedAt q; quest_error := quest_error q |} :: rest
      else row :: upsert q rest
  end.

Definition save (q : Quest) : Async unit :=
  fun w => (Returned tt, withQuests (upsert q (quests w)) w).

(** [SELECT * FROM quests WHERE id = ?] *)
Definition findById (id : string) : Async (option Quest) :=
  fun w => (Returned (find (fun row => String.eqb (quest_id row) id) (quests w)), w).

Definition delete (id : string) : Async unit :=
  fun w =>
    (Returned tt,
     withQuests (filter (fun row => negb (String.eqb (quest_id row) id)) (quests w)) w).

End QuestRepository.

Module QuestManager.

Definition createQuest (E : Env) (config_ : QuestConfig) : Async Quest :=
  now <- external (clock E) ;;
  id <- external (uuidv4 E) ;;
  let quest_ :=
    {| quest_id := id; config := config_; status := pending;
       currentLevel := level_none; createdAt := now; updatedAt := now;
       quest_error := None |} in
  QuestRepository.save quest_ ;;;
  ret quest_.

Definition getQuest (id : string) : Async (option Quest) :=
  QuestRepository.findById id.

Definition addKnowledgeItem (E : Env) (item : KnowledgeInput) : Async KnowledgeItem :=
  KnowledgeBaseService.addKnowledge E item.

Definition logExecution (E : Env) (log : ExecutionLogInput) : Async ExecutionLog :=
  LearningEngineService.logExecution E log.

Definition executeQuest (fuel : nat) (E : Env) (questId_ : string)
    : Async (option (option (list AtomicResult))) :=
  found <- getQuest questId_ ;;
  match found with
  | None => throw "Quest not found"
  | Some quest_ =>
      let taskPyramid := TaskPyramidImpl.new E quest_ in
      LevelCoordinator.coordinate fuel E taskPyramid
  end.

End QuestManager.

(* ================================================================== *)
(** * learning/LearningEngineService.ts, the reports *)
(* ================================================================== *)

Module LearningEngineReports.

(** [`${count}`] for a count of occurrences. *)
Definition countToString (count : nat) : string :=
  NilZero.string_of_uint (Nat.to_uint count).

(** A [Map<string, number>]: the entries in the order in which their keys
    were first set. *)
Definition CountMap : Type := list (string * nat).

(** [map.get(key)] *)
Fixpoint mapGet (key : string) (m : CountMap) : option nat :=
  match m with
  | [] => None
  | (k, v) :: rest => if String.eqb k key then Some v else mapGet key rest
  end.

(** [map.set(key, value)] *)
Fixpoint mapSet (key : string) (value : nat) (m : CountMap) : CountMap :=
  match m with
  | [] => [(key, value)]
  | (k, v) :: rest =>
      if String.eqb k key then (k, value) :: rest
      else (k, v) :: mapSet key value rest
  end.

(** [map.set(key, (map.get(key) || 0) + 1)] *)
Definition increment (key : string) (m : CountMap) : CountMap :=
  mapSet key (match mapGet key m with Some n => n | None => 0 end + 1)%nat m.






(** [WHERE status = 'success' AND toolCalls IS NOT NULL] *)
Definition isSuccessWithToolCalls (row : ExecutionLog) : bool :=
  match log_status row, toolCalls row with
  | success, Some _ => true
  | _, _ => false
  end.

(** The two nested [for] loops over the rows and their tool calls. *)
Definition toolUsage (rows : list ExecutionLog) : CountMap :=
  fold_left
    (fun m row =>
       match toolCalls row with
       | Some calls => fold_left (fun m' call => increment (tool call) m') calls m
       | None => m
       end)
    rows [].

(** [entries.sort((a, b) => b[1] - a[1])]: the sort of an array is stable,
    so the result is the one of an insertion sort that puts an entry
    before the first entry, among those that followed it, whose count is
    not larger. *)
Fixpoint insertByCount (entry : string * nat) (sorted : CountMap) : CountMap :=
  match sorted with
  | [] => [entry]
  | other :: rest =>
      if Nat.leb (snd other) (snd entry) then entry :: sorted
      else other :: insertByCount entry rest
  end.

Fixpoint sortByCount (entries : CountMap) : CountMap :=
  match entries with
  | [] => []
  | entry :: rest => insertByCount entry (sortByCount rest)
  end.

Definition usage (entry : string * nat) : string :=
  "Tool '" ++ fst entry ++ "' was used successfully "
  ++ countToString (snd entry) ++ " times.".

Definition suggestToolUsagePatterns : Async (list string) :=
  fun w =>
    let successfulTasks := filter isSuccessWithToolCalls (execution_logs w) in
    match successfulTasks with
    | [] => (Returned ["No successful tool usage recorded yet."], w)
    | _ => (Returned (map usage (sortByCount (toolUsage successfulTasks))), w)
    end.

End LearningEngineReports.

(* ================================================================== *)
(** * core/QuestManager.ts, deletion *)
(* ================================================================== *)

Module QuestManagerDelete.

Definition deleteQuest (questId_ : string) : Async unit :=
  existingQuest <- QuestRepository.findById questId_ ;;
  match existingQuest with
  | None => throw ("Quest with ID " ++ questId_ ++ " not found.")
  | Some _ => QuestRepository.delete questId_
  end.

End QuestManagerDelete.

(* ================================================================== *)
(** * Vocabulary for the cache, the model and the coordinator *)
(* ================================================================== *)

Module Vocabulary.

(** The rows that the scan of [get] compares with the query, when the
    first of [rows] is read at tick [n]: each row that is not expired at
    its reading and has a stored vector, with its response and its
    similarity to the query. *)
Fixpoint candidates (E : Env) (queryEmbedding : list float) (n : nat)
    (rows : list SemanticCacheService.SelectedRow) : list (string * float) :=
  match rows with
  | [] => []
  | row :: rest =>
      let others := candidates E queryEmbedding (S n) rest in
      if SemanticCacheService.expired (clock E n) row then others
      else match SemanticCacheService.sel_semanticVector row with
           | Some v =>
               (SemanticCacheService.sel_response row,
                SemanticCacheService.cosineSimilarity queryEmbedding v) :: others
           | None => others
           end
  end.

(** A vector all of whose components are zero, of either sign. *)
Definition allZero (vec : list float) : Prop :=
  Forall (fun x => x = 0%float \/ x = (-0)%float) vec.


(** The environment with another model behind [sendMessageStream]. *)
Definition withModel (E : Env)
    (model : nat -> string -> string -> Completion (list Chunk)) : Env :=
  {| clock := clock E; uuidv4 := uuidv4 E; sha256hex := sha256hex E;
     embedContent := embedContent E; sendMessageStream := model;
     parseTasks := parseTasks E; stringifyTasks := stringifyTasks E;
     stringifyResults := stringifyResults E;
     stringifyTags := stringifyTags E; parseTags := parseTags E |}.

Import LevelCoordinator.

(** The local variables hold what the call of the current state needs:
    the non-null assertions of [coordinate] are met. *)
Definition plansDefined (l : Locals) : Prop :=
  match currentState l with
  | STRATEGIC | DONE => True
  | TACTICAL => strategicPlan l <> None
  | OPERATIONAL => strategicPlan l <> None /\ tacticalPlan l <> None
  | ATOMIC =>
      strategicPlan l <> None /\ tacticalPlan l <> None
      /\ operationalTasks l <> None
  end.

(** The coordinator is past the two planning levels. *)
Definition pastPlanning (l : Locals) : Prop :=
  currentState l = OPERATIONAL \/ currentState l = ATOMIC \/ currentState l = DONE.

(** A list of entries in descending order of count. *)
Definition descending (entries : list (string * nat)) : Prop :=
  Sorted.StronglySorted (fun a b => (snd b <= snd a)%nat) entries.

(** The row that the upsert leaves for the id of [q]: the fields of [q],
    with the creation time of the row that was there, if any. *)
Definition stored (q : Quest) (old : option Quest) : Quest :=
  {| quest_id := quest_id q; config := config q; status := status q;
     currentLevel := currentLevel q;
     createdAt := match old with Some row => createdAt row | None => createdAt q end;
     updatedAt := updatedAt q; quest_error := quest_error q |}.

(** The names of the tools called by the rows, in order. *)
Definition toolsCalled (rows : list ExecutionLog) : list string :=
  flat_map (fun row => match toolCalls row with
                       | Some calls => map tool calls
                       | None => []
                       end) rows.

(** A byte of an ASCII text (not NUL, below 0x80), and a text of such
    bytes. *)
Definition asciiByte (b : ascii) : bool :=
  ((0 <? N_of_ascii b) && (N_of_ascii b <? 128))%N%bool.

Definition asciiText (s : string) : bool :=
  forallb asciiByte (list_ascii_of_string s).

End Vocabulary.

(* ================================================================== *)
(** * Test doubles: a scripted environment *)
(* ================================================================== *)

Module Scripted.

Definition digit (n : nat) : string :=
  String (ascii_of_nat (48 + Nat.modulo n 10)) EmptyString.

(** Identifiers [id-0], [id-1], ... by tick (ticks stay below ten thousand
    in the runs below). *)
Definition uuid (n : nat) : string :=
  "id-" ++ digit (Nat.div n 1000) ++ digit (Nat.div n 100)
        ++ digit (Nat.div n 10) ++ digit n.

Definition oneTask : OperationalTask :=
  {| task := "write the file"; suggestedTool := "writeFile" |}.

Definition oneTaskJson : string :=
  "[{" ++ GeminiDispatcher.quote ++ "task" ++ GeminiDispatcher.quote ++ ":"
  ++ GeminiDispatcher.quote ++ "write the file" ++ GeminiDispatcher.quote ++ ","
  ++ GeminiDispatcher.quote ++ "suggestedTool" ++ GeminiDispatcher.quote ++ ":"
  ++ GeminiDispatcher.quote ++ "writeFile" ++ GeminiDispatcher.quote ++ "}]".

(** A parser that knows two documents: the empty array and [oneTaskJson];
    every other text is a syntax error. *)
Definition parse (text : string) : option (list OperationalTask) :=
  if String.eqb text "[]" then Some []
  else if String.eqb text oneTaskJson then Some [oneTask]
  else None.

(** An environment whose model answers every prompt with the one content
    chunk [answer prompt], whose embedding of a query is [embedding query],
    and whose clock shows [1000 * tick]. *)
Definition env (embedding : string -> option (list float))
    (answer : string -> Completion string) : Env :=
  {| clock := fun n => 1000 * Z.of_nat n;
     uuidv4 := uuid;
     sha256hex := fun query => query;
     embedContent := fun _ query => Returned (embedding query);
     sendMessageStream := fun _ prompt _ =>
       match answer prompt with
       | Returned text =>
           Returned [{| chunk_type := "thought"; chunk_value := "..." |};
                     {| chunk_type := "content"; chunk_value := text |}]
       | Threw e => Threw e
       end;
     parseTasks := parse;
     stringifyTasks := fun tasks =>
       match tasks with [] => "[]" | _ => oneTaskJson end;
     stringifyResults := fun results =>
       match results with [] => "[]" | _ => "[...]" end;
     stringifyTags := Js.join ",";
     parseTags := fun text => [text] |}.

Definition config0 : QuestConfig := {| title := "T"; description := "D" |}.

(** [createQuest(config0)], then [executeQuest] on the new quest (its
    completion kept as a value), then [getQuest]. *)
Definition createExecuteGet (E : Env) (fuel : nat)
    : Async (Completion (option (option (list AtomicResult))) * option Quest) :=
  created <- QuestManager.createQuest E config0 ;;
  executed <- attempt (QuestManager.executeQuest fuel E (quest_id created)) ;;
  found <- QuestManager.getQuest (quest_id created) ;;
  ret (executed, found).

(** A quest as [createQuest] makes it. *)
Definition quest0 : Quest :=
  {| quest_id := "quest-0";
     config := {| title := "T"; description := "D" |};
     status := pending; currentLevel := level_none;
     createdAt := 0; updatedAt := 0; quest_error := None |}.

(** A cache row with a TTL of half a second, written at time 0. *)
Definition staleEntry : CacheEntry :=
  {| queryHash := "h"; semanticVector := Some [1%float];
     response := "stale"; timestamp := 0; ttl := Some 500 |}.

(** A knowledge item to add, and a log entry to write. *)
Definition note : KnowledgeInput :=
  {| in_content := "sqlite is file based"; in_tags := Some ["db"];
     in_source := Some "plan" |}.

Definition entry0 : ExecutionLogInput :=
  {| in_questId := "quest-0"; in_level := "tactical"; in_input := "plan";
     in_output := "milestones"; in_durationMs := 12; in_status := success;
     in_toolCalls := None; in_error := None |}.


(** A model that answers each level of the pyramid: a plan, milestones,
    one task, and the report of a successful build. *)
Definition answers (prompt : string) : Completion string :=
  if Js.startsWith prompt "Design the architecture" then Returned "PLAN"
  else if Js.startsWith prompt "Based on the following strategic"
  then Returned "MILESTONES"
  else if Js.startsWith prompt "Based on the following tactical"
  then Returned oneTaskJson
  else Returned "Build success".

(** A model that is not available. *)
Definition unavailable (prompt : string) : Completion string :=
  Threw "model unavailable".

(** No embedding is available. *)
Definition noEmbedding (query : string) : option (list float) := None.

(** A query of 49999 bytes. *)
Definition longQuery : string :=
  string_of_list_ascii (repeat "a"%char (N.to_nat 49999)).

(** "a", U+00E9 (small e with acute, bytes C3 A9), "b"; and the same with
    U+00C9 (the capital, bytes C3 89) in the middle. *)
Definition aeb : string :=
  String "a" (String (ascii_of_nat 195) (String (ascii_of_nat 169) "b")).

Definition aEb : string :=
  String "a" (String (ascii_of_nat 195) (String (ascii_of_nat 137) "b")).

(** A row of the knowledge base with the content [aeb]. *)
Definition aebRow : KnowledgeRow :=
  {| row_id := "id-0000"; row_content := aeb; row_tags := None;
     row_source := None; row_timestamp := 0 |}.

End Scripted.

(* ================================================================== *)
(** * The vocabulary of the specification *)
(* ================================================================== *)

Module Spec.

(** The alphabet, in capital and in small letters. *)
Definition capitals : string := "ABCDEFGHIJKLMNOPQRSTUVWXYZ".
Definition smalls : string := "abcdefghijklmnopqrstuvwxyz".

(** Two characters are the same ignoring case when they are the same
    character, or the capital and the small form of one letter of the
    alphabet. *)
Inductive sameLetter : ascii -> ascii -> Prop :=
| same_character (c : ascii) : sameLetter c c
| capital_small (i : nat) (capital small : ascii) :
    String.get i capitals = Some capital -> String.get i smalls = Some small ->
    sameLetter capital small
| small_capital (i : nat) (capital small : ascii) :
    String.get i capitals = Some capital -> String.get i smalls = Some small ->
    sameLetter small capital.

(** A test of [sameLetter] by the table of the alphabet, and the list of
    all characters (the characters of the codes below 256). *)
Definition letterPairAt (i : nat) (a b : ascii) : bool :=
  match String.get i capitals, String.get i smalls with
  | Some capital, Some small => (Ascii.eqb capital a && Ascii.eqb small b)%bool
  | _, _ => false
  end.

Definition sameLetterb (a b : ascii) : bool :=
  (Ascii.eqb a b
   || existsb (fun i => (letterPairAt i a b || letterPairAt i b a)%bool)
              (seq 0 26))%bool.

Definition allCharacters : list ascii := map ascii_of_nat (seq 0 256).

(** Two strings are equal ignoring case when they have the same length and
    their characters are the same ignoring case, position by position. *)
Inductive equalsIgnoringCase : string -> string -> Prop :=
| eic_empty : equalsIgnoringCase "" ""
| eic_char (a b : ascii) (s t : string) :
    sameLetter a b ->
    equalsIgnoringCase s t ->
    equalsIgnoringCase (String a s) (String b t).

(** [s] contains [needle] as a substring, ignoring case. *)
Definition containsIgnoringCase (s needle : string) : Prop :=
  exists before middle rest,
    s = before ++ middle ++ rest /\ equalsIgnoringCase middle needle.

Import LevelCoordinator.

(** The last element of a batch of results. *)
Definition lastResult (results : list AtomicResult) (r : AtomicResult) : Prop :=
  exists earlier, results = (earlier ++ [r])%list.

(** The level that a call belongs to, and whether it raised an error. *)
Definition levelOf (call : LevelCall) : QuestState :=
  match call with
  | StrategicCall _ => STRATEGIC
  | TacticalCall _ => TACTICAL
  | OperationalCall _ => OPERATIONAL
  | AtomicCall _ => ATOMIC
  | NoCall => DONE
  end.




(** The turns that the loop of [coordinate] takes from one point of a run
    to a later one. *)
Inductive Turns (E : Env) (taskPyramid : TaskPyramid)
    : Locals -> World -> Locals -> World -> Prop :=
| turns_none (l : Locals) (w : World) : Turns E taskPyramid l w l w
| turns_more (l l1 l2 : Locals) (w w1 w2 : World) :
    currentState l <> DONE ->
    iteration E taskPyramid l w = (Returned l1, w1) ->
    Turns E taskPyramid l1 w1 l2 w2 ->
    Turns E taskPyramid l w l2 w2.

End Spec.

(* ================================================================== *)
(** * Properties *)
(* ================================================================== *)

(** ** Asynchronous methods *)

Section AsyncFacts.

Context {A B : Type}.

Lemma bind_returned (m : Async A) (k : A -> Async B) (w w' : World) (a : A) :
  m w = (Returned a, w') -> bind m k w = k a w'.
Proof. intros H. unfold bind. rewrite H. reflexivity. Qed.

Lemma bind_threw (m : Async A) (k : A -> Async B) (w w' : World) (e : string) :
  m w = (Threw e, w') -> bind m k w = (Threw e, w').
Proof. intros H. unfold bind. rewrite H. reflexivity. Qed.

Lemma bind_inv (m : Async A) (k : A -> Async B) (w w' : World) (b : B) :
  bind m k w = (Returned b, w') ->
  exists a w1, m w = (Returned a, w1) /\ k a w1 = (Returned b, w').
Proof.
  unfold bind. destruct (m w) as [[a | e] w1]; intros H.
  - exists a, w1. split; [reflexivity | exact H].
  - discriminate H.
Qed.

End AsyncFacts.

(** A method keeps an observation [f] of the state when no run of it
    changes [f]. *)
Definition keeps {T A : Type} (f : World -> T) (m : Async A) : Prop :=
  forall w, f (snd (m w)) = f w.

Section Keeps.

Context {T : Type} (f : World -> T).

Lemma keeps_ret {A} (a : A) : keeps f (ret a).
Proof. intros w. reflexivity. Qed.

Lemma keeps_throw {A} (e : string) : keeps f (@throw A e).
Proof. intros w. reflexivity. Qed.

Lemma keeps_bind {A B} (m : Async A) (k : A -> Async B) :
  keeps f m -> (forall a, keeps f (k a)) -> keeps f (bind m k).
Proof.
  intros Hm Hk w. unfold bind. specialize (Hm w).
  destruct (m w) as [[a | e] w1]; simpl in *.
  - rewrite Hk. exact Hm.
  - exact Hm.
Qed.

Lemma keeps_attempt {A} (m : Async A) : keeps f m -> keeps f (attempt m).
Proof.
  intros Hm w. unfold attempt. specialize (Hm w).
  destruct (m w) as [c w1]. exact Hm.
Qed.

(** An external effect changes the tick only. *)
Lemma keeps_external {A} (g : nat -> A) :
  (forall w n, f {| quests := quests w; knowledge_items := knowledge_items w;
                    semantic_cache := semantic_cache w;
                    execution_logs := execution_logs w; tick := n |} = f w) ->
  keeps f (external g).
Proof. intros H w. unfold external. simpl. apply H. Qed.

Lemma keeps_externalCall {A} (g : nat -> Completion A) :
  (forall w n, f {| quests := quests w; knowledge_items := knowledge_items w;
                    semantic_cache := semantic_cache w;
                    execution_logs := execution_logs w; tick := n |} = f w) ->
  keeps f (externalCall g).
Proof.
  intros H. unfold externalCall. apply keeps_bind.
  - apply keeps_external, H.
  - intros c w. reflexivity.
Qed.

End Keeps.

(** A query of the knowledge base leaves the state as it is, whether it
    resolves or rejects. *)
Lemma retrieveKnowledge_state (E : Env) (query : string) (limit : Z) (w : World) :
  snd (KnowledgeBaseService.retrieveKnowledge E query limit w) = w.
Proof.
  unfold KnowledgeBaseService.retrieveKnowledge.
  match goal with |- context [if ?b then _ else _] => destruct b end;
    reflexivity.
Qed.

(** ** Strings *)

Lemma startsWith_iff (s needle : string) :
  Js.startsWith s needle = true <-> exists rest, s = needle ++ rest.
Proof.
  revert s. induction needle as [| a needle IH]; intros s; simpl.
  - split; [intros _; exists s; reflexivity | reflexivity].
  - destruct s as [| b s].
    + split; [discriminate | intros [rest H]; discriminate H].
    + rewrite andb_true_iff, Ascii.eqb_eq, IH. split.
      * intros [-> [rest ->]]. exists rest. reflexivity.
      * intros [rest H]. injection H as -> ->. split; [reflexivity | eauto].
Qed.

Lemma includes_iff (s needle : string) :
  Js.includes s needle = true <-> exists before rest, s = before ++ needle ++ rest.
Proof.
  induction s as [| c s IH].
  - simpl. rewrite orb_false_r, startsWith_iff. split.
    + intros [rest H]. exists "", rest. exact H.
    + intros [before [rest H]]. destruct before as [| b before].
      * exists rest. exact H.
      * discriminate H.
  - cbn [Js.includes]. rewrite orb_true_iff, startsWith_iff, IH. split.
    + intros [[rest H] | [before [rest H]]].
      * exists "", rest. exact H.
      * exists (String c before), rest. simpl. rewrite H. reflexivity.
    + intros [before [rest H]]. destruct before as [| b before].
      * left. exists rest. exact H.
      * right. simpl in H. injection H as _ H. exists before, rest. exact H.
Qed.

Lemma toLowerCase_app (a b : string) :
  Js.toLowerCase (a ++ b) = Js.toLowerCase a ++ Js.toLowerCase b.
Proof. induction a as [| c a IH]; simpl; [reflexivity | rewrite IH; reflexivity]. Qed.

Lemma toLowerCase_split (s x y : string) :
  Js.toLowerCase s = x ++ y ->
  exists a b, s = a ++ b /\ Js.toLowerCase a = x /\ Js.toLowerCase b = y.
Proof.
  revert s. induction x as [| c x IH]; intros s H.
  - exists "", s. auto.
  - destruct s as [| d s]; [discriminate H |].
    simpl in H. injection H as Hc H.
    destruct (IH s H) as [a [b [-> [Ha Hb]]]].
    exists (String d a), b. simpl. rewrite Hc, Ha. auto.
Qed.

Lemma In_allCharacters (c : ascii) : In c Spec.allCharacters.
Proof.
  unfold Spec.allCharacters. rewrite <- (ascii_nat_embedding c).
  apply in_map, in_seq. pose proof (nat_ascii_bounded c). lia.
Qed.

Lemma letterPairAt_true (i : nat) (a b : ascii) :
  Spec.letterPairAt i a b = true ->
  String.get i Spec.capitals = Some a /\ String.get i Spec.smalls = Some b.
Proof.
  unfold Spec.letterPairAt.
  destruct (String.get i Spec.capitals) as [capital |]; [| discriminate].
  destruct (String.get i Spec.smalls) as [small |]; [| discriminate].
  rewrite andb_true_iff, !Ascii.eqb_eq. intros [-> ->]. auto.
Qed.

Lemma sameLetterb_sound (a b : ascii) :
  Spec.sameLetterb a b = true -> Spec.sameLetter a b.
Proof.
  unfold Spec.sameLetterb. rewrite orb_true_iff, Ascii.eqb_eq, existsb_exists.
  intros [-> | [i [_ H]]]; [constructor |].
  apply orb_true_iff in H. destruct H as [H | H];
    apply letterPairAt_true in H; destruct H as [Hc Hs].
  - exact (Spec.capital_small i a b Hc Hs).
  - exact (Spec.small_capital i b a Hc Hs).
Qed.

(** [toLowerCase] maps two characters to the same one exactly when they are
    the same ignoring case: on every pair of characters, by the table. *)
Lemma lowerAscii_table :
  forallb (fun a =>
             forallb (fun b =>
                        implb (Ascii.eqb (Js.lowerAscii a) (Js.lowerAscii b))
                              (Spec.sameLetterb a b))
                     Spec.allCharacters)
          Spec.allCharacters = true.
Proof. vm_compute. reflexivity. Qed.

Lemma alphabet_lowerAscii (i : nat) (capital small : ascii) :
  String.get i Spec.capitals = Some capital ->
  String.get i Spec.smalls = Some small ->
  Js.lowerAscii capital = small /\ Js.lowerAscii small = small.
Proof.
  intros Hc Hs.
  do 26 (destruct i as [| i];
         [cbn in Hc, Hs; injection Hc as <-; injection Hs as <-;
          split; reflexivity |]).
  discriminate Hc.
Qed.

Lemma sameLetter_iff (a b : ascii) :
  Spec.sameLetter a b <-> Js.lowerAscii a = Js.lowerAscii b.
Proof.
  split.
  - intros [c | i capital small Hc Hs | i capital small Hc Hs].
    + reflexivity.
    + destruct (alphabet_lowerAscii i capital small Hc Hs) as [-> ->].
      reflexivity.
    + destruct (alphabet_lowerAscii i capital small Hc Hs) as [-> ->].
      reflexivity.
  - intros H. apply sameLetterb_sound.
    pose proof lowerAscii_table as Htable.
    rewrite forallb_forall in Htable.
    specialize (Htable a (In_allCharacters a)).
    rewrite forallb_forall in Htable.
    specialize (Htable b (In_allCharacters b)).
    rewrite H, Ascii.eqb_refl in Htable. exact Htable.
Qed.

Lemma equalsIgnoringCase_iff (s t : string) :
  Spec.equalsIgnoringCase s t <-> Js.toLowerCase s = Js.toLowerCase t.
Proof.
  split.
  - induction 1 as [| a b s t Hab _ IH]; simpl; [reflexivity |].
    apply sameLetter_iff in Hab. rewrite Hab, IH. reflexivity.
  - revert t. induction s as [| a s IH]; intros [| b t] H; simpl in H;
      try discriminate H.
    + constructor.
    + injection H as Hab H.
      constructor; [apply sameLetter_iff, Hab | apply IH, H].
Qed.

(** The test of [dispatchAtomic] decides the containment of the
    specification, for a needle in lower case. *)
Lemma includes_toLowerCase (s needle : string) :
  Js.toLowerCase needle = needle ->
  Js.includes (Js.toLowerCase s) needle = true <->
  Spec.containsIgnoringCase s needle.
Proof.
  intros Hlow. rewrite includes_iff. unfold Spec.containsIgnoringCase. split.
  - intros [x [z H]].
    destruct (toLowerCase_split _ _ _ H) as [before [tl [-> [_ Htl]]]].
    destruct (toLowerCase_split _ _ _ Htl) as [middle [rest [-> [Hm _]]]].
    exists before, middle, rest. split; [reflexivity |].
    apply equalsIgnoringCase_iff. rewrite Hm, Hlow. reflexivity.
  - intros [before [middle [rest [-> Heq]]]].
    apply equalsIgnoringCase_iff in Heq. rewrite Hlow in Heq.
    exists (Js.toLowerCase before), (Js.toLowerCase rest).
    rewrite !toLowerCase_app, Heq. reflexivity.
Qed.

(** ** GeminiDispatcher *)

(** C6.  When the response that [sendMessage] obtains for the operational
    prompt is not valid JSON, [dispatchOperational] resolves with the empty
    task list (it does not reject); when the response parses, it resolves
    with the parsed task list.  In both cases the state is the one that
    [sendMessage] left. *)
Theorem C6_dispatchOperational_parse (E : Env) (quest_ : Quest)
    (tacticalPlan : option string) (w w' : World) (response_ : string) :
  GeminiDispatcher.sendMessage E quest_
    (GeminiDispatcher.operationalPrompt tacticalPlan) w = (Returned response_, w') ->
  (parseTasks E response_ = None ->
   GeminiDispatcher.dispatchOperational E quest_ tacticalPlan w = (Returned [], w'))
  /\ (forall tasks, parseTasks E response_ = Some tasks ->
      GeminiDispatcher.dispatchOperational E quest_ tacticalPlan w
      = (Returned tasks, w')).
Proof.
  intros Hsend. unfold GeminiDispatcher.dispatchOperational.
  rewrite (bind_returned _ _ _ _ _ Hsend). split.
  - intros ->. reflexivity.
  - intros tasks ->. reflexivity.
Qed.

(** C7.  The result of [dispatchAtomic] for a task carries that task and,
    as its outcome, the text that [sendMessage] resolved with for the
    atomic prompt of the task; its next state is ['done'] exactly when the
    outcome contains "success" ignoring case, and ['operational'] exactly
    when it does not. *)
Theorem C7_dispatchAtomic_nextState (E : Env) (quest_ : Quest)
    (task_ : OperationalTask) (w w' : World) (r : AtomicResult) :
  GeminiDispatcher.dispatchAtomic E quest_ task_ w = (Returned r, w') ->
  result_task r = task_
  /\ GeminiDispatcher.sendMessage E quest_ (GeminiDispatcher.atomicPrompt task_) w
     = (Returned (outcome r), w')
  /\ (nextState r = Some "done" <->
      Spec.containsIgnoringCase (outcome r) "success")
  /\ (nextState r = Some "operational" <->
      ~ Spec.containsIgnoringCase (outcome r) "success").
Proof.
  intros H. unfold GeminiDispatcher.dispatchAtomic in H.
  apply bind_inv in H. destruct H as [outcome_ [w1 [Hsend H]]].
  unfold ret in H. injection H as <- <-. cbn [result_task outcome nextState].
  pose proof (includes_toLowerCase outcome_ "success" eq_refl) as Hiff.
  split; [reflexivity | split; [exact Hsend |]].
  destruct (Js.includes (Js.toLowerCase outcome_) "success").
  - split.
    + split; [intros _; apply Hiff; reflexivity | reflexivity].
    + split; [discriminate |].
      intros Hn. exfalso. apply Hn, Hiff. reflexivity.
  - split.
    + split; [discriminate | intros Hc; apply Hiff in Hc; discriminate Hc].
    + split; [| reflexivity].
      intros _ Hc. apply Hiff in Hc. discriminate Hc.
Qed.

(** C6 on the response "not a json string". *)
Lemma C6_dispatchOperational_parse_witness :
  exists w',
    GeminiDispatcher.dispatchOperational
      (Scripted.env Scripted.noEmbedding (fun _ => Returned "not a json string"))
      Scripted.quest0 (Some "Tactical milestones") emptyWorld
    = (Returned [], w').
Proof.
  eexists.
  refine (proj1 (C6_dispatchOperational_parse
                   (Scripted.env Scripted.noEmbedding
                      (fun _ => Returned "not a json string"))
                   Scripted.quest0 (Some "Tactical milestones") emptyWorld _
                   "not a json string" _) _).
  - vm_compute. reflexivity.
  - vm_compute. reflexivity.
Defined.

(** C7 on the outcome "Build SUCCESSful": "SUCCESS" is "success" letter by
    letter of the alphabet, and the next state is ['done']. *)
Lemma C7_dispatchAtomic_nextState_witness :
  exists r w',
    GeminiDispatcher.dispatchAtomic
      (Scripted.env Scripted.noEmbedding (fun _ => Returned "Build SUCCESSful"))
      Scripted.quest0 Scripted.oneTask emptyWorld = (Returned r, w')
    /\ outcome r = "Build SUCCESSful"
    /\ nextState r = Some "done".
Proof.
  assert (Hrun : exists r w',
            GeminiDispatcher.dispatchAtomic
              (Scripted.env Scripted.noEmbedding
                 (fun _ => Returned "Build SUCCESSful"))
              Scripted.quest0 Scripted.oneTask emptyWorld = (Returned r, w')
            /\ outcome r = "Build SUCCESSful")
    by (eexists; eexists; split; vm_compute; reflexivity).
  destruct Hrun as [r [w' [Hrun Houtcome]]].
  exists r, w'. split; [exact Hrun | split; [exact Houtcome |]].
  destruct (C7_dispatchAtomic_nextState _ _ _ _ _ _ Hrun) as [_ [_ [Hdone _]]].
  apply Hdone. rewrite Houtcome.
  exists "Build ", "SUCCESS", "ful". split; [reflexivity |].
  apply Spec.eic_char; [exact (Spec.capital_small 18 "S" "s" eq_refl eq_refl) |].
  apply Spec.eic_char; [exact (Spec.capital_small 20 "U" "u" eq_refl eq_refl) |].
  apply Spec.eic_char; [exact (Spec.capital_small 2 "C" "c" eq_refl eq_refl) |].
  apply Spec.eic_char; [exact (Spec.capital_small 2 "C" "c" eq_refl eq_refl) |].
  apply Spec.eic_char; [exact (Spec.capital_small 4 "E" "e" eq_refl eq_refl) |].
  apply Spec.eic_char; [exact (Spec.capital_small 18 "S" "s" eq_refl eq_refl) |].
  apply Spec.eic_char; [exact (Spec.capital_small 18 "S" "s" eq_refl eq_refl) |].
  exact Spec.eic_empty.
Defined.

(** ** SemanticCacheService *)

Section CacheFacts.

Variable E : Env.

Lemma withCache_same (w : World) : withCache (semantic_cache w) w = w.
Proof. destruct w. reflexivity. Qed.

(** A statement whose placeholder holds NULL deletes nothing. *)
Lemma deleteWhereQueryHash_null (w : World) :
  SemanticCacheService.deleteWhereQueryHash None w = (Returned tt, w).
Proof.
  unfold SemanticCacheService.deleteWhereQueryHash. f_equal.
  assert (Hall : forall rows : list CacheEntry,
            filter (fun r => negb (Sqlite.eqParam (queryHash r) None)) rows
            = rows).
  { induction rows as [| r rows IH]; [reflexivity |].
    simpl. f_equal. exact IH. }
  rewrite Hall. apply withCache_same.
Qed.

Lemma scan_keeps_cache (queryEmbedding : list float)
    (rows : list SemanticCacheService.SelectedRow) :
  forall bestMatch highestSimilarity,
    keeps semantic_cache
      (SemanticCacheService.scan E queryEmbedding rows bestMatch highestSimilarity).
Proof.
  induction rows as [| row rest IH]; intros bestMatch highest; simpl.
  - apply keeps_ret.
  - apply keeps_bind; [apply keeps_external; reflexivity |].
    intros now.
    destruct (SemanticCacheService.expired now row).
    + apply keeps_bind; [| intros _; apply IH].
      intros w. unfold SemanticCacheService.sel_queryHash.
      rewrite deleteWhereQueryHash_null. reflexivity.
    + destruct (SemanticCacheService.sel_semanticVector row) as [v |];
        [| apply IH].
      destruct (PrimFloat.ltb highest
                  (SemanticCacheService.cosineSimilarity queryEmbedding v));
        apply IH.
Qed.

(** A read never changes the table: the DELETE of an expired row is bound
    to [row.queryHash], which the SELECT of [get] does not fetch. *)
Lemma get_keeps_cache (query : string) (similarityThreshold : float) :
  keeps semantic_cache (SemanticCacheService.get E query similarityThreshold).
Proof.
  unfold SemanticCacheService.get.
  apply keeps_bind; [apply keeps_externalCall; reflexivity |].
  intros [queryEmbedding |]; [| apply keeps_ret].
  intros w. apply scan_keeps_cache.
Qed.

(** A row without a TTL is never expired. *)
Lemma expired_null_ttl (now : Z) (row : SemanticCacheService.SelectedRow) :
  SemanticCacheService.sel_ttl row = None ->
  SemanticCacheService.expired now row = false.
Proof. unfold SemanticCacheService.expired. intros ->. reflexivity. Qed.

(** An expired row does not take part in the matching. *)
Lemma scan_skips_expired (queryEmbedding : list float)
    (row : SemanticCacheService.SelectedRow)
    (rest : list SemanticCacheService.SelectedRow)
    (bestMatch : option string) (highestSimilarity : float) (w : World) :
  SemanticCacheService.expired (clock E (tick w)) row = true ->
  SemanticCacheService.scan E queryEmbedding (row :: rest)
    bestMatch highestSimilarity w
  = SemanticCacheService.scan E queryEmbedding rest bestMatch highestSimilarity
      (snd (external (clock E) w)).
Proof.
  intros H. cbn [SemanticCacheService.scan]. unfold bind at 1.
  cbn [external]. rewrite H. unfold bind at 1.
  unfold SemanticCacheService.sel_queryHash.
  rewrite deleteWhereQueryHash_null. cbn [snd].
  destruct w; reflexivity.
Qed.

(** What [set] leaves in the table. *)
Lemma set_result (query response_ : string) (ttlArg : option Z) (w : World)
    (e : option (list float)) :
  embedContent E (S (tick w)) query = Returned e ->
  SemanticCacheService.set E query response_ ttlArg w
  = (Returned tt,
     {| quests := quests w; knowledge_items := knowledge_items w;
        semantic_cache :=
          filter (fun row => negb (String.eqb (queryHash row)
                                     (SemanticCacheService.generateHash E query)))
                 (semantic_cache w)
          ++ [{| queryHash := SemanticCacheService.generateHash E query;
                 semanticVector := option_map Js.jsonNumbers e;
                 response := response_;
                 timestamp := clock E (tick w);
                 ttl := None |}];
        execution_logs := execution_logs w;
        tick := S (S (tick w)) |}).
Proof.
  intros He. unfold SemanticCacheService.set, bind, externalCall, bind, external.
  cbn [tick]. rewrite He. reflexivity.
Qed.

(** The scan ends on a row without TTL whose similarity is above the
    running maximum, when the rows before it are all strictly less
    similar. *)
Lemma scan_last_row (queryEmbedding stored : list float) (best : float)
    (last : SemanticCacheService.SelectedRow)
    (rows : list SemanticCacheService.SelectedRow) :
  SemanticCacheService.sel_ttl last = None ->
  SemanticCacheService.sel_semanticVector last = Some stored ->
  SemanticCacheService.cosineSimilarity queryEmbedding stored = best ->
  (forall row v, In row rows ->
     SemanticCacheService.sel_semanticVector row = Some v ->
     PrimFloat.ltb (SemanticCacheService.cosineSimilarity queryEmbedding v) best
     = true) ->
  forall bestMatch highestSimilarity w,
    PrimFloat.ltb highestSimilarity best = true ->
    exists w',
      SemanticCacheService.scan E queryEmbedding (rows ++ [last])
        bestMatch highestSimilarity w
      = (Returned (Some (SemanticCacheService.sel_response last)), w').
Proof.
  intros Httl Hvec Hbest. induction rows as [| row rest IH];
    intros Hrows bestMatch highest w Hhigh.
  - cbn [app SemanticCacheService.scan]. unfold bind at 1. cbn [external].
    rewrite (expired_null_ttl _ _ Httl), Hvec, Hbest, Hhigh.
    eexists. reflexivity.
  - cbn [app SemanticCacheService.scan]. unfold bind at 1. cbn [external].
    assert (Hrest : forall row0 v, In row0 rest ->
              SemanticCacheService.sel_semanticVector row0 = Some v ->
              PrimFloat.ltb
                (SemanticCacheService.cosineSimilarity queryEmbedding v) best
              = true)
      by (intros row0 v Hin; apply Hrows; right; exact Hin).
    destruct (SemanticCacheService.expired _ row).
    + unfold bind at 1. unfold SemanticCacheService.sel_queryHash.
      rewrite deleteWhereQueryHash_null. apply IH; assumption.
    + destruct (SemanticCacheService.sel_semanticVector row) as [v |] eqn:Hv;
        [| apply IH; assumption].
      destruct (PrimFloat.ltb highest
                  (SemanticCacheService.cosineSimilarity queryEmbedding v));
        [| apply IH; assumption].
      apply IH; [assumption |].
      apply (Hrows row v); [left; reflexivity | exact Hv].
Qed.

End CacheFacts.

(** C4, as amended.  [set(q, r)] followed immediately by [get(q, t)] returns
    [r] when the embedding capability returns the same vector [e] for [q]
    at every call, the threshold [t] is strictly below the similarity that
    [cosineSimilarity] computes between [e] and its stored copy, and every
    stored vector of another query is strictly less similar to [e] than
    that. *)
Theorem C4_set_then_get (E : Env) (query response_ : string)
    (ttlArg : option Z) (threshold : float) (e : list float) (w : World) :
  (forall n, embedContent E n query = Returned (Some e)) ->
  PrimFloat.ltb threshold
    (SemanticCacheService.cosineSimilarity e (Js.jsonNumbers e)) = true ->
  (forall row v, In row (semantic_cache w) ->
     queryHash row <> SemanticCacheService.generateHash E query ->
     semanticVector row = Some v ->
     PrimFloat.ltb (SemanticCacheService.cosineSimilarity e v)
       (SemanticCacheService.cosineSimilarity e (Js.jsonNumbers e)) = true) ->
  exists w1 w2,
    SemanticCacheService.set E query response_ ttlArg w = (Returned tt, w1)
    /\ SemanticCacheService.get E query threshold w1
       = (Returned (Some response_), w2).
Proof.
  intros Hembed Hthreshold Hothers.
  pose proof (set_result E query response_ ttlArg w _ (Hembed _)) as Hset.
  cbn [option_map] in Hset.
  match type of Hset with _ = (_, ?w1) => exists w1 end.
  unfold SemanticCacheService.get, externalCall.
  unfold bind at 1. unfold bind at 1. cbn [external tick].
  rewrite Hembed. cbn [semantic_cache]. rewrite map_app. cbn [map].
  match goal with
  | |- context [SemanticCacheService.scan E e (?rows ++ [?last]) None threshold ?w0] =>
      destruct (scan_last_row E e (Js.jsonNumbers e) _ last rows
                  eq_refl eq_refl eq_refl) with
        (bestMatch := @None string) (highestSimilarity := threshold) (w := w0)
        as [w2 Hscan]
  end.
  - intros row v Hin Hv. apply in_map_iff in Hin.
    destruct Hin as [row0 [<- Hin]]. apply filter_In in Hin.
    destruct Hin as [Hin Hhash]. apply (Hothers row0 v Hin); [| exact Hv].
    intros Heq. rewrite Heq, String.eqb_refl in Hhash. discriminate Hhash.
  - exact Hthreshold.
  - exists w2. split; [exact Hset | exact Hscan].
Qed.

(** C4 on an empty table, the embedding [[1; 1]] and the default
    threshold. *)
Lemma C4_set_then_get_witness :
  exists w1 w2,
    SemanticCacheService.set
      (Scripted.env (fun _ => Some [1%float; 1%float]) (fun _ => Returned ""))
      "q" "r" None emptyWorld = (Returned tt, w1)
    /\ SemanticCacheService.get
         (Scripted.env (fun _ => Some [1%float; 1%float]) (fun _ => Returned ""))
         "q" SemanticCacheService.defaultSimilarityThreshold w1
       = (Returned (Some "r"), w2).
Proof.
  apply (C4_set_then_get
           (Scripted.env (fun _ => Some [1%float; 1%float]) (fun _ => Returned ""))
           "q" "r" None SemanticCacheService.defaultSimilarityThreshold
           [1%float; 1%float] emptyWorld).
  - intros n. reflexivity.
  - vm_compute. reflexivity.
  - intros row v [].
Defined.

(** C4 as stated fails at the threshold 1.0: the embedding [[1]] has norm 1
    and similarity exactly 1 to itself, which does not strictly exceed the
    threshold, and [get] finds no match. *)
Lemma C4_counterexample :
  (forall n,
     embedContent (Scripted.env (fun _ => Some [1%float]) (fun _ => Returned ""))
       n "q" = Returned (Some [1%float]))
  /\ PrimFloat.eqb (PrimFloat.sqrt (SemanticCacheService.sumOfSquares [1%float])) 0
     = false
  /\ PrimFloat.leb 1 1 = true
  /\ fst (bind (SemanticCacheService.set
                  (Scripted.env (fun _ => Some [1%float]) (fun _ => Returned ""))
                  "q" "r" None)
               (fun _ =>
                  SemanticCacheService.get
                    (Scripted.env (fun _ => Some [1%float]) (fun _ => Returned ""))
                    "q" 1%float)
               emptyWorld)
     = Returned None.
Proof.
  split; [intros n; reflexivity |].
  split; [vm_compute; reflexivity |].
  split; vm_compute; reflexivity.
Qed.

(** The similarity computed between a vector and itself need not be 1:
    for [[1; 1]] it is the double just below 1, and a threshold between
    the two finds no match. *)
Example self_similarity_below_one :
  SemanticCacheService.cosineSimilarity [1%float; 1%float] [1%float; 1%float]
  = 0x1.ffffffffffffep-1%float
  /\ PrimFloat.ltb 0x1.fffffffffffffp-1%float 1 = true
  /\ fst (bind (SemanticCacheService.set
                  (Scripted.env (fun _ => Some [1%float; 1%float])
                     (fun _ => Returned ""))
                  "q" "r" None)
               (fun _ =>
                  SemanticCacheService.get
                    (Scripted.env (fun _ => Some [1%float; 1%float])
                       (fun _ => Returned ""))
                    "q" 0x1.fffffffffffffp-1%float)
               emptyWorld)
     = Returned None.
Proof. repeat split; vm_compute; reflexivity. Qed.

(** An earlier row of another query with an equally similar vector keeps
    the match: the comparison of the scan is strict. *)
Example earlier_equal_row_wins :
  fst (bind (SemanticCacheService.set
               (Scripted.env (fun _ => Some [1%float]) (fun _ => Returned ""))
               "q" "r" None)
            (fun _ =>
               SemanticCacheService.get
                 (Scripted.env (fun _ => Some [1%float]) (fun _ => Returned ""))
                 "q" SemanticCacheService.defaultSimilarityThreshold)
            (withCache
               [{| queryHash := "p"; semanticVector := Some [2%float];
                   response := "old"; timestamp := 0; ttl := None |}]
               emptyWorld))
  = Returned (Some "old").
Proof. vm_compute. reflexivity. Qed.

(** C10.  The row that [set] writes for a query has a NULL [ttl], whatever
    the [_ttl] argument, and it is the only row of that key; the TTL check of
    [get] holds it expired at no time.  A table in which no row has a TTL
    stays so under [set]. *)
Theorem C10_set_writes_null_ttl (E : Env) (query response_ : string)
    (ttlArg : option Z) (w w' : World) :
  SemanticCacheService.set E query response_ ttlArg w = (Returned tt, w') ->
  (exists row,
     In row (semantic_cache w')
     /\ queryHash row = SemanticCacheService.generateHash E query
     /\ response row = response_
     /\ ttl row = None)
  /\ (forall row,
        In row (semantic_cache w') ->
        queryHash row = SemanticCacheService.generateHash E query ->
        ttl row = None
        /\ forall now,
             SemanticCacheService.expired now (SemanticCacheService.selectRow row)
             = false)
  /\ ((forall row, In row (semantic_cache w) -> ttl row = None) ->
      forall row, In row (semantic_cache w') -> ttl row = None).
Proof.
  intros Hset.
  destruct (embedContent E (S (tick w)) query) as [e | msg] eqn:He.
  - rewrite (set_result E query response_ ttlArg w e He) in Hset.
    injection Hset as <-. cbn [semantic_cache]. split; [| split].
    + eexists. split; [apply in_or_app; right; left; reflexivity |].
      cbn. auto.
    + intros row Hin Hhash. apply in_app_or in Hin.
      assert (Httl : ttl row = None).
      { destruct Hin as [Hin | [<- | []]]; [| reflexivity].
        apply filter_In in Hin. destruct Hin as [_ Hneq].
        rewrite Hhash, String.eqb_refl in Hneq. discriminate Hneq. }
      split; [exact Httl |].
      intros now. apply expired_null_ttl. exact Httl.
    + intros Hall row Hin. apply in_app_or in Hin.
      destruct Hin as [Hin | [<- | []]]; [| reflexivity].
      apply filter_In in Hin. apply Hall, Hin.
  - unfold SemanticCacheService.set, bind, externalCall, bind, external in Hset.
    cbn [tick] in Hset. rewrite He in Hset. discriminate Hset.
Qed.

(** C10 with a TTL argument of one millisecond. *)
Lemma C10_set_writes_null_ttl_witness :
  exists w',
    SemanticCacheService.set
      (Scripted.env (fun _ => Some [1%float]) (fun _ => Returned ""))
      "q" "r" (Some 1) emptyWorld = (Returned tt, w')
    /\ forall row,
         In row (semantic_cache w') ->
         queryHash row
         = SemanticCacheService.generateHash
             (Scripted.env (fun _ => Some [1%float]) (fun _ => Returned "")) "q" ->
         ttl row = None
         /\ forall now,
              SemanticCacheService.expired now (SemanticCacheService.selectRow row)
              = false.
Proof.
  eexists. split; [vm_compute; reflexivity |].
  apply (proj1 (proj2 (C10_set_writes_null_ttl
                         (Scripted.env (fun _ => Some [1%float])
                            (fun _ => Returned ""))
                         "q" "r" (Some 1) emptyWorld _ eq_refl))).
Defined.

(** C5 at a read one second after the row was written.  The row is expired
    and takes no part in the matching ([get] finds nothing, although the
    same row without TTL would match), but it is still in the table after
    the read: [get] binds [row.queryHash] to the DELETE, which its SELECT
    does not fetch. *)
Theorem C5_expired_entry_stays :
  SemanticCacheService.expired
    (clock (Scripted.env (fun _ => Some [1%float]) (fun _ => Returned "")) 1)
    (SemanticCacheService.selectRow Scripted.staleEntry) = true
  /\ SemanticCacheService.get
       (Scripted.env (fun _ => Some [1%float]) (fun _ => Returned ""))
       "q" SemanticCacheService.defaultSimilarityThreshold
       (withCache [Scripted.staleEntry] emptyWorld)
     = (Returned None,
        {| quests := []; knowledge_items := [];
           semantic_cache := [Scripted.staleEntry];
           execution_logs := []; tick := 2 |})
  /\ fst (SemanticCacheService.get
            (Scripted.env (fun _ => Some [1%float]) (fun _ => Returned ""))
            "q" SemanticCacheService.defaultSimilarityThreshold
            (withCache
               [{| queryHash := "h"; semanticVector := Some [1%float];
                   response := "stale"; timestamp := 0; ttl := None |}]
               emptyWorld))
     = Returned (Some "stale").
Proof. repeat split; vm_compute; reflexivity. Qed.

(** ** KnowledgeBaseService *)

(** Every [addKnowledge] rejects and stores nothing: the INSERT has five
    placeholders and three bound parameters, so the NOT NULL column
    [timestamp] receives NULL. *)
Lemma addKnowledge_rejects (E : Env) (item : KnowledgeInput) (w : World) :
  exists w',
    KnowledgeBaseService.addKnowledge E item w
    = (Threw "SQLITE_CONSTRAINT: NOT NULL constraint failed: knowledge_items.timestamp",
       w')
    /\ knowledge_items w' = knowledge_items w.
Proof.
  unfold KnowledgeBaseService.addKnowledge, bind, external,
    KnowledgeBaseService.insert.
  cbn. eexists. split; reflexivity.
Qed.

(** C8 at the item [Scripted.note] on an empty store: [addKnowledge] rejects
    with the constraint error of the [timestamp] column, no row is stored,
    and a following [retrieveKnowledge] for a word of the content finds
    nothing. *)
Theorem C8_addKnowledge_rejects :
  fst (KnowledgeBaseService.addKnowledge
         (Scripted.env Scripted.noEmbedding (fun _ => Returned ""))
         Scripted.note emptyWorld)
  = Threw "SQLITE_CONSTRAINT: NOT NULL constraint failed: knowledge_items.timestamp"
  /\ knowledge_items
       (snd (KnowledgeBaseService.addKnowledge
               (Scripted.env Scripted.noEmbedding (fun _ => Returned ""))
               Scripted.note emptyWorld))
     = []
  /\ fst (bind (attempt (KnowledgeBaseService.addKnowledge
                           (Scripted.env Scripted.noEmbedding (fun _ => Returned ""))
                           Scripted.note))
               (fun _ =>
                  KnowledgeBaseService.retrieveKnowledge
                    (Scripted.env Scripted.noEmbedding (fun _ => Returned ""))
                    "sqlite" KnowledgeBaseService.defaultLimit)
               emptyWorld)
     = Returned [].
Proof. repeat split; vm_compute; reflexivity. Qed.

(** A row that is in the table is found by [retrieveKnowledge] through its
    content, without regard to case. *)
Example retrieveKnowledge_finds_stored_row :
  fst (KnowledgeBaseService.retrieveKnowledge
         (Scripted.env Scripted.noEmbedding (fun _ => Returned ""))
         "SQLite" KnowledgeBaseService.defaultLimit
         (withKnowledge
            [{| row_id := "id-0000"; row_content := "sqlite is file based";
                row_tags := None; row_source := None; row_timestamp := 0 |}]
            emptyWorld))
  = Returned [{| item_id := "id-0000"; content := "sqlite is file based";
                 tags := None; source := None; item_timestamp := 0 |}].
Proof. vm_compute. reflexivity. Qed.

(** ** LearningEngineService *)

(** [getLogsByQuestId] returns no row, whatever the table holds: no
    parameter is bound to the placeholder of [WHERE questId = ?]. *)
Lemma getLogsByQuestId_empty (questId_ : string) (w : World) :
  LearningEngineService.getLogsByQuestId questId_ w = (Returned [], w).
Proof.
  unfold LearningEngineService.getLogsByQuestId,
    LearningEngineService.selectWhereQuestId.
  f_equal. f_equal.
  induction (execution_logs w) as [| row rows IH]; [reflexivity | exact IH].
Qed.

(** C9 after one [logExecution] for the quest [quest-0]:
    [analyzePastExecutions] shows the row with its [questId], and
    [getLogsByQuestId] for that quest returns no row. *)
Theorem C9_getLogsByQuestId_returns_nothing :
  map questId
    (execution_logs
       (snd (LearningEngineService.logExecution
               (Scripted.env Scripted.noEmbedding (fun _ => Returned ""))
               Scripted.entry0 emptyWorld)))
  = ["quest-0"]
  /\ fst (bind (LearningEngineService.logExecution
                  (Scripted.env Scripted.noEmbedding (fun _ => Returned ""))
                  Scripted.entry0)
               (fun _ => LearningEngineService.getLogsByQuestId "quest-0")
               emptyWorld)
     = Returned [].
Proof. split; vm_compute; reflexivity. Qed.

(** ** LevelCoordinator *)

Import LevelCoordinator.





Lemma callLevel_returns (taskPyramid : TaskPyramid) (l : Locals) (w : World) :
  exists call w1,
    callLevel taskPyramid l w = (Returned call, w1)
    /\ Spec.levelOf call = currentState l.
Proof.
  unfold callLevel, bind, attempt, ret.
  destruct (currentState l).
  - destruct (executeStrategicLevel taskPyramid w); eauto.
  - destruct (executeTacticalLevel taskPyramid (strategicPlan l) w); eauto.
  - destruct (executeOperationalLevel taskPyramid (tacticalPlan l) w); eauto.
  - destruct (executeAtomicLevel taskPyramid (operationalTasks l) w); eauto.
  - eauto.
Qed.


(** One turn of the loop ends, with the locals that [try] and [catch]
    leave. *)
Lemma iteration_returns (E : Env) (taskPyramid : TaskPyramid) (l : Locals)
    (w w1 : World) (call : LevelCall) :
  callLevel taskPyramid l (snd (external (clock E) w)) = (Returned call, w1) ->
  exists w',
    iteration E taskPyramid l w = (Returned (locals (tryCatch E l call)), w').
Proof.
  intros Hcall. unfold iteration. unfold bind at 1.
  cbn [external snd] in *. unfold bind at 1. rewrite Hcall.
  unfold bind, external, LearningEngineService.logExecution, bind, external, ret.
  eexists. reflexivity.
Qed.





(** A run of the loop that ends is a sequence of turns, each taken in a
    state other than DONE, and it ends in DONE. *)
Lemma loop_Turns (E : Env) (taskPyramid : TaskPyramid) (fuel : nat) :
  forall l w final w',
    loop fuel E taskPyramid l w = (Returned (Some final), w') ->
    Spec.Turns E taskPyramid l w final w' /\ currentState final = DONE.
Proof.
  induction fuel as [| fuel IH]; intros l w final w' Hloop.
  - simpl in Hloop. destruct (currentState l) eqn:Hstate;
      try discriminate Hloop.
    injection Hloop as <- <-. split; [constructor | exact Hstate].
  - simpl in Hloop. destruct (currentState l) eqn:Hstate;
      try (apply bind_inv in Hloop;
           destruct Hloop as [l1 [w1 [Hiter Hrest]]];
           destruct (IH _ _ _ _ Hrest) as [Hturns Hdone];
           split; [| exact Hdone];
           apply (Spec.turns_more E taskPyramid l l1 final w w1 w');
           [rewrite Hstate; discriminate | exact Hiter | exact Hturns]).
    injection Hloop as <- <-. split; [constructor | exact Hstate].
Qed.

(** The row that one turn of the loop writes: one row, after whatever the
    level's call wrote, attributed to the state that the turn leaves and
    with the log input of that state. *)
Lemma iteration_log_row (E : Env) (taskPyramid : TaskPyramid) (l : Locals)
    (w w1 : World) (call : LevelCall) :
  callLevel taskPyramid l (snd (external (clock E) w)) = (Returned call, w1) ->
  exists l' w' row,
    iteration E taskPyramid l w = (Returned l', w')
    /\ l' = locals (tryCatch E l call)
    /\ execution_logs w' = (execution_logs w1 ++ [row])%list
    /\ questId row = quest_id (quest taskPyramid)
    /\ level row = stateName (currentState l')
    /\ input row = getLogInput E (currentState l') (strategicPlan l')
                     (tacticalPlan l') (operationalTasks l')
    /\ output row = att_output (tryCatch E l call)
    /\ log_status row = att_status (tryCatch E l call).
Proof.
  intros Hcall. unfold iteration. unfold bind at 1.
  cbn [external snd] in *. unfold bind at 1. rewrite Hcall.
  unfold bind, external, LearningEngineService.logExecution, bind, external, ret.
  cbn. do 3 eexists. repeat split.
Qed.

(** ** QuestManager: the quests table during an execution *)

Ltac keeps_step :=
  first
    [ apply keeps_ret
    | apply keeps_throw
    | apply keeps_external; reflexivity
    | apply keeps_externalCall; reflexivity
    | apply keeps_attempt
    | apply keeps_bind; [| intros ?] ].

Section QuestsUntouched.

Variable E : Env.

Lemma scan_keeps_quests (queryEmbedding : list float)
    (rows : list SemanticCacheService.SelectedRow) :
  forall bestMatch highestSimilarity,
    keeps quests
      (SemanticCacheService.scan E queryEmbedding rows bestMatch highestSimilarity).
Proof.
  induction rows as [| row rest IH]; intros bestMatch highest; simpl.
  - keeps_step.
  - repeat keeps_step.
    destruct (SemanticCacheService.expired _ row).
    + keeps_step; [intros w; reflexivity | apply IH].
    + destruct (SemanticCacheService.sel_semanticVector row) as [v |];
        [| apply IH].
      destruct (PrimFloat.ltb _ _); apply IH.
Qed.

Lemma get_keeps_quests (query : string) (threshold : float) :
  keeps quests (SemanticCacheService.get E query threshold).
Proof.
  unfold SemanticCacheService.get. repeat keeps_step.
  destruct a as [queryEmbedding |]; [| keeps_step].
  intros w. apply scan_keeps_quests.
Qed.

Lemma set_keeps_quests (query response_ : string) (ttlArg : option Z) :
  keeps quests (SemanticCacheService.set E query response_ ttlArg).
Proof.
  unfold SemanticCacheService.set. repeat keeps_step.
  intros w. reflexivity.
Qed.

Lemma sendMessage_keeps_quests (quest_ : Quest) (prompt : string) :
  keeps quests (GeminiDispatcher.sendMessage E quest_ prompt).
Proof.
  unfold GeminiDispatcher.sendMessage.
  keeps_step; [apply get_keeps_quests |].
  destruct (Js.truthyString a); [keeps_step |].
  keeps_step; [keeps_step |].
  keeps_step; [apply set_keeps_quests | keeps_step].
Qed.

Lemma atomicLoop_keeps_quests (quest_ : Quest) (tasks : list OperationalTask) :
  forall results, keeps quests (TaskPyramidImpl.atomicLoop E quest_ tasks results).
Proof.
  induction tasks as [| task_ rest IH]; intros results; simpl.
  - keeps_step.
  - keeps_step; [| apply IH].
    unfold GeminiDispatcher.dispatchAtomic.
    keeps_step; [apply sendMessage_keeps_quests | keeps_step].
Qed.

(** A TaskPyramid none of whose calls changes the quests table. *)
Definition pyramidKeepsQuests (taskPyramid : TaskPyramid) : Prop :=
  keeps quests (executeStrategicLevel taskPyramid)
  /\ (forall plan, keeps quests (executeTacticalLevel taskPyramid plan))
  /\ (forall plan, keeps quests (executeOperationalLevel taskPyramid plan))
  /\ (forall tasks, keeps quests (executeAtomicLevel taskPyramid tasks)).

Lemma new_keeps_quests (quest_ : Quest) :
  pyramidKeepsQuests (TaskPyramidImpl.new E quest_).
Proof.
  unfold pyramidKeepsQuests, TaskPyramidImpl.new; cbn. repeat split.
  - unfold GeminiDispatcher.dispatchStrategic.
    keeps_step; [| apply sendMessage_keeps_quests].
    intros w. rewrite retrieveKnowledge_state. reflexivity.
  - intros plan. apply sendMessage_keeps_quests.
  - intros plan. unfold GeminiDispatcher.dispatchOperational.
    keeps_step; [apply sendMessage_keeps_quests |].
    destruct (parseTasks E a); keeps_step.
  - intros [tasks |]; [apply atomicLoop_keeps_quests | keeps_step].
Qed.

Lemma iteration_keeps_quests (taskPyramid : TaskPyramid) (l : Locals) :
  pyramidKeepsQuests taskPyramid -> keeps quests (iteration E taskPyramid l).
Proof.
  intros [Hs [Ht [Ho Ha]]]. unfold iteration.
  keeps_step; [keeps_step |].
  keeps_step.
  - unfold callLevel. destruct (currentState l); repeat keeps_step; auto.
  - keeps_step; [keeps_step |].
    keeps_step; [| keeps_step].
    unfold LearningEngineService.logExecution. repeat keeps_step.
    intros w. reflexivity.
Qed.

Lemma loop_keeps_quests (taskPyramid : TaskPyramid) (fuel : nat) :
  pyramidKeepsQuests taskPyramid ->
  forall l, keeps quests (loop fuel E taskPyramid l).
Proof.
  intros Hp. induction fuel as [| fuel IH]; intros l; simpl.
  - destruct (currentState l); keeps_step.
  - destruct (currentState l); try keeps_step;
      first [apply iteration_keeps_quests; exact Hp | apply IH].
Qed.

(** [executeQuest] leaves every row of the quests table as it was: no
    status, level or error is written, whether the run succeeds or fails. *)
Lemma executeQuest_keeps_quests (fuel : nat) (questId_ : string) :
  keeps quests (QuestManager.executeQuest fuel E questId_).
Proof.
  unfold QuestManager.executeQuest.
  keeps_step; [intros w; reflexivity |].
  destruct a as [quest_ |]; [| keeps_step].
  unfold coordinate. keeps_step; [| keeps_step].
  apply loop_keeps_quests, new_keeps_quests.
Qed.

End QuestsUntouched.

(** C2 on a quest that runs through the four levels with the scripted
    model.  Four turns write four rows, one each, but no row is attributed
    to the level that was attempted: the row of the strategic turn carries
    the level ['tactical'] and the strategic plan as its input (not the
    initial description), and so on down to a row of level ['done'] with
    an empty input for the atomic turn. *)
Theorem C2_rows_attributed_to_next_state :
  map (fun row => (level row, input row, log_status row))
      (execution_logs
         (snd (Scripted.createExecuteGet
                 (Scripted.env Scripted.noEmbedding Scripted.answers) 10
                 emptyWorld)))
  = [("tactical", "PLAN", success);
     ("operational", "MILESTONES", success);
     ("atomic", Scripted.oneTaskJson, success);
     ("done", "", success)].
Proof. vm_compute. reflexivity. Qed.

(** C3 on a quest whose first level fails because the model is not
    available.  [executeQuest] resolves (with [undefined]), the failure is
    one row of the execution log, and the quest read back by [getQuest] is
    as it was created: status ['pending'], no error. *)
Theorem C3_failed_quest_stays_pending :
  fst (Scripted.createExecuteGet
         (Scripted.env Scripted.noEmbedding Scripted.unavailable) 10 emptyWorld)
  = Returned
      (Returned (Some None),
       Some {| quest_id := "id-0001"; config := Scripted.config0;
               status := pending; currentLevel := level_none;
               createdAt := 0; updatedAt := 0; quest_error := None |})
  /\ map (fun row => (level row, output row, log_status row, log_error row))
         (execution_logs
            (snd (Scripted.createExecuteGet
                    (Scripted.env Scripted.noEmbedding Scripted.unavailable) 10
                    emptyWorld)))
     = [("done", "Error: model unavailable", failure, Some "model unavailable")].
Proof. split; vm_compute; reflexivity. Qed.

(* ================================================================== *)
(** * Further properties *)
(* ================================================================== *)

(** ** The order of binary64 numbers *)

Lemma SFltb_trans (x y z : spec_float) :
  SFltb x y = true -> SFltb y z = true -> SFltb x z = true.
Proof.
  unfold SFltb, SFcompare.
  destruct x as [sx | sx | | sx mx ex], y as [sy | sy | | sy my ey],
           z as [sz | sz | | sz mz ez];
    try destruct sx; try destruct sy; try destruct sz;
    try discriminate; try reflexivity; intros Hxy Hyz.
  - destruct (Z.compare_spec ex ey), (Z.compare_spec ey ez),
      (Z.compare_spec ex ez);
      subst; try lia; try discriminate; try reflexivity.
    rewrite !Pos.compare_cont_spec in *. cbn [Pos.switch_Eq] in *.
    destruct (Pos.compare_spec mx my), (Pos.compare_spec my mz),
      (Pos.compare_spec mx mz);
      cbn in *; subst; try lia; try discriminate; try reflexivity.
  - destruct (Z.compare_spec ex ey), (Z.compare_spec ey ez),
      (Z.compare_spec ex ez);
      subst; try lia; try discriminate; try reflexivity.
    rewrite !Pos.compare_cont_spec in *. cbn [Pos.switch_Eq] in *.
    destruct (Pos.compare_spec mx my), (Pos.compare_spec my mz),
      (Pos.compare_spec mx mz);
      cbn in *; subst; try lia; try discriminate; try reflexivity.
Qed.

Lemma SFltb_irrefl (x : spec_float) : SFltb x x = false.
Proof.
  unfold SFltb, SFcompare.
  destruct x as [s | s | | s m e]; try destruct s; try reflexivity;
    rewrite Z.compare_refl, Pos.compare_cont_refl; reflexivity.
Qed.

Lemma ltb_trans (x y z : float) :
  PrimFloat.ltb x y = true -> PrimFloat.ltb y z = true -> PrimFloat.ltb x z = true.
Proof. rewrite !ltb_spec. apply SFltb_trans. Qed.

Lemma ltb_irrefl (x : float) : PrimFloat.ltb x x = false.
Proof. rewrite ltb_spec. apply SFltb_irrefl. Qed.

(** What is not above [x] is not above a number larger than [x]. *)
Lemma ltb_false_above (x y s : float) :
  PrimFloat.ltb x y = true -> PrimFloat.ltb x s = false ->
  PrimFloat.ltb y s = false.
Proof.
  intros Hxy Hxs. destruct (PrimFloat.ltb y s) eqn:Hys; [| reflexivity].
  rewrite (ltb_trans x y s Hxy Hys) in Hxs. discriminate Hxs.
Qed.

(** ** SemanticCacheService: the match that [get] returns *)

Section BestMatch.

Variable E : Env.
Variable queryEmbedding : list float.
Variable threshold : float.

(** The running best match of the scan, against the candidates seen. *)
Definition bestSoFar (seen : list (string * float))
    (bestMatch : option string) (highest : float) : Prop :=
  match bestMatch with
  | None =>
      highest = threshold
      /\ forall r s, In (r, s) seen -> PrimFloat.ltb threshold s = false
  | Some r =>
      In (r, highest) seen
      /\ PrimFloat.ltb threshold highest = true
      /\ forall r' s, In (r', s) seen -> PrimFloat.ltb highest s = false
  end.

Lemma bestSoFar_next (seen : list (string * float)) (bestMatch : option string)
    (highest : float) (r : string) (s : float) :
  bestSoFar seen bestMatch highest ->
  bestSoFar (seen ++ [(r, s)])
    (if PrimFloat.ltb highest s then Some r else bestMatch)
    (if PrimFloat.ltb highest s then s else highest).
Proof.
  intros Hbest. destruct (PrimFloat.ltb highest s) eqn:Hlt.
  - cbn. split; [apply in_or_app; right; left; reflexivity |].
    destruct bestMatch as [r0 |]; cbn in Hbest.
    + destruct Hbest as [_ [Hth Hmax]]. split; [exact (ltb_trans _ _ _ Hth Hlt) |].
      intros r' s' Hin. apply in_app_or in Hin. destruct Hin as [Hin | [Heq | []]].
      * exact (ltb_false_above _ _ _ Hlt (Hmax _ _ Hin)).
      * injection Heq as _ <-. apply ltb_irrefl.
    + destruct Hbest as [-> Hnone]. split; [exact Hlt |].
      intros r' s' Hin. apply in_app_or in Hin. destruct Hin as [Hin | [Heq | []]].
      * exact (ltb_false_above _ _ _ Hlt (Hnone _ _ Hin)).
      * injection Heq as _ <-. apply ltb_irrefl.
  - destruct bestMatch as [r0 |]; cbn in *.
    + destruct Hbest as [Hin0 [Hth Hmax]].
      split; [apply in_or_app; left; exact Hin0 | split; [exact Hth |]].
      intros r' s' Hin. apply in_app_or in Hin. destruct Hin as [Hin | [Heq | []]].
      * exact (Hmax _ _ Hin).
      * injection Heq as _ <-. exact Hlt.
    + destruct Hbest as [-> Hnone]. split; [reflexivity |].
      intros r' s' Hin. apply in_app_or in Hin. destruct Hin as [Hin | [Heq | []]].
      * exact (Hnone _ _ Hin).
      * injection Heq as _ <-. exact Hlt.
Qed.

Lemma scan_bestSoFar (rows : list SemanticCacheService.SelectedRow) :
  forall seen bestMatch highest w,
    bestSoFar seen bestMatch highest ->
    exists best highest' w',
      SemanticCacheService.scan E queryEmbedding rows bestMatch highest w
      = (Returned best, w')
      /\ bestSoFar
           (seen ++ Vocabulary.candidates E queryEmbedding (tick w) rows)
           best highest'.
Proof.
  induction rows as [| row rest IH]; intros seen bestMatch highest w Hbest.
  - exists bestMatch, highest, w. cbn. rewrite app_nil_r. auto.
  - cbn [SemanticCacheService.scan Vocabulary.candidates].
    unfold bind at 1. cbn [external].
    destruct (SemanticCacheService.expired (clock E (tick w)) row).
    + unfold bind at 1. unfold SemanticCacheService.sel_queryHash.
      rewrite deleteWhereQueryHash_null.
      match goal with
      | |- context [SemanticCacheService.scan _ _ rest _ _ ?w1] =>
          exact (IH seen bestMatch highest w1 Hbest)
      end.
    + destruct (SemanticCacheService.sel_semanticVector row) as [v |].
      * pose proof (bestSoFar_next seen bestMatch highest
                      (SemanticCacheService.sel_response row)
                      (SemanticCacheService.cosineSimilarity queryEmbedding v)
                      Hbest) as Hnext.
        match goal with
        | |- context [Vocabulary.candidates E queryEmbedding ?n rest] =>
            change (seen ++ ?c :: Vocabulary.candidates E queryEmbedding n rest)%list
              with (seen ++ [c] ++ Vocabulary.candidates E queryEmbedding n rest)%list
        end.
        rewrite app_assoc.
        destruct (PrimFloat.ltb highest
                    (SemanticCacheService.cosineSimilarity queryEmbedding v));
          match goal with
          | |- context [SemanticCacheService.scan _ _ rest ?b ?h ?w1] =>
              exact (IH _ b h w1 Hnext)
          end.
      * match goal with
        | |- context [SemanticCacheService.scan _ _ rest _ _ ?w1] =>
            exact (IH seen bestMatch highest w1 Hbest)
        end.
Qed.

End BestMatch.

(** X1.  [get] returns the best match above the threshold, or nothing.  When the
    embedding of the query is [e], the rows compared are those not expired
    at their reading that have a stored vector.  If [get] returns a
    response, it is the response of such a row whose similarity strictly
    exceeds the threshold and that no compared row exceeds; if it returns
    [null], no compared row exceeds the threshold. *)
Theorem get_returns_best_match (E : Env) (query : string) (threshold : float)
    (w : World) (e : list float) :
  embedContent E (tick w) query = Returned (Some e) ->
  exists best w',
    SemanticCacheService.get E query threshold w = (Returned best, w')
    /\ match best with
       | Some r =>
           exists s,
             In (r, s)
                (Vocabulary.candidates E e (S (tick w))
                   (map SemanticCacheService.selectRow (semantic_cache w)))
             /\ PrimFloat.ltb threshold s = true
             /\ forall r' s',
                  In (r', s')
                     (Vocabulary.candidates E e (S (tick w))
                        (map SemanticCacheService.selectRow (semantic_cache w))) ->
                  PrimFloat.ltb s s' = false
       | None =>
           forall r s,
             In (r, s)
                (Vocabulary.candidates E e (S (tick w))
                   (map SemanticCacheService.selectRow (semantic_cache w))) ->
             PrimFloat.ltb threshold s = false
       end.
Proof.
  intros He. unfold SemanticCacheService.get, externalCall.
  unfold bind at 1. unfold bind at 1. cbn [external]. rewrite He.
  cbn [semantic_cache].
  match goal with
  | |- context [SemanticCacheService.scan E e ?rows None threshold ?w1] =>
      destruct (scan_bestSoFar E e threshold rows [] None threshold w1)
        as [best [highest [w' [Hscan Hbest]]]]
  end.
  - cbn. split; [reflexivity | intros r s []].
  - exists best, w'. split; [exact Hscan |].
    cbn [tick app] in Hbest. destruct best as [r |]; cbn in Hbest.
    + exists highest. exact Hbest.
    + apply Hbest.
Qed.

(** The best match on a table of three rows: one expired, one
    similar to the query and one opposite to it. *)
Lemma get_returns_best_match_witness :
  exists best w',
    SemanticCacheService.get
      (Scripted.env (fun _ => Some [1%float]) (fun _ => Returned ""))
      "q" SemanticCacheService.defaultSimilarityThreshold
      (withCache
         [Scripted.staleEntry;
          {| queryHash := "a"; semanticVector := Some [2%float];
             response := "near"; timestamp := 0; ttl := None |};
          {| queryHash := "b"; semanticVector := Some [(-1)%float];
             response := "far"; timestamp := 0; ttl := None |}]
         emptyWorld)
    = (Returned best, w')
    /\ best = Some "near".
Proof.
  destruct (get_returns_best_match
              (Scripted.env (fun _ => Some [1%float]) (fun _ => Returned ""))
              "q" SemanticCacheService.defaultSimilarityThreshold
              (withCache
                 [Scripted.staleEntry;
                  {| queryHash := "a"; semanticVector := Some [2%float];
                     response := "near"; timestamp := 0; ttl := None |};
                  {| queryHash := "b"; semanticVector := Some [(-1)%float];
                     response := "far"; timestamp := 0; ttl := None |}]
                 emptyWorld)
              [1%float] eq_refl) as [best [w' [Hget _]]].
  exists best, w'. split; [exact Hget |].
  vm_compute in Hget. injection Hget as <- _. reflexivity.
Defined.

(** The sum of squares of a vector of zeros is zero. *)
Lemma sumOfSquares_allZero (vec : list float) :
  Vocabulary.allZero vec -> SemanticCacheService.sumOfSquares vec = 0%float.
Proof.
  unfold SemanticCacheService.sumOfSquares. induction 1 as [| x rest Hx _ IH].
  - reflexivity.
  - cbn [fold_left]. destruct Hx as [-> | ->]; exact IH.
Qed.

(** X2.  The similarity is 0 when one of the two vectors has only zero
    components (or is empty), whatever the other vector is. *)
Theorem cosineSimilarity_zero_vector (vec1 vec2 : list float) :
  Vocabulary.allZero vec1 \/ Vocabulary.allZero vec2 ->
  SemanticCacheService.cosineSimilarity vec1 vec2 = 0%float.
Proof.
  intros [H | H]; unfold SemanticCacheService.cosineSimilarity;
    rewrite (sumOfSquares_allZero _ H).
  - reflexivity.
  - change (PrimFloat.eqb (PrimFloat.sqrt 0) 0) with true.
    rewrite orb_true_r. reflexivity.
Qed.

Lemma cosineSimilarity_zero_vector_witness :
  SemanticCacheService.cosineSimilarity
    [3%float; PrimFloat.nan] [0%float; (-0)%float] = 0%float.
Proof.
  apply cosineSimilarity_zero_vector. right.
  apply Forall_cons; [left; reflexivity |].
  apply Forall_cons; [right; reflexivity | apply Forall_nil].
Defined.

(** [set] leaves the rows of the other keys as they are. *)
Lemma set_other_rows (E : Env) (query response_ : string)
    (ttlArg : option Z) (w w' : World) :
  SemanticCacheService.set E query response_ ttlArg w = (Returned tt, w') ->
  filter (fun r => negb (String.eqb (queryHash r)
                           (SemanticCacheService.generateHash E query)))
         (semantic_cache w')
  = filter (fun r => negb (String.eqb (queryHash r)
                             (SemanticCacheService.generateHash E query)))
           (semantic_cache w).
Proof.
  intros Hset.
  destruct (embedContent E (S (tick w)) query) as [e | msg] eqn:He.
  - rewrite (set_result E query response_ ttlArg w e He) in Hset.
    injection Hset as <-. cbn [semantic_cache].
    set (h := SemanticCacheService.generateHash E query).
    rewrite filter_app. cbn [filter queryHash]. rewrite String.eqb_refl.
    cbn [negb]. rewrite app_nil_r.
    induction (semantic_cache w) as [| r rows IH]; [reflexivity |].
    cbn [filter]. destruct (String.eqb (queryHash r) h) eqn:Hr; cbn [negb].
    + exact IH.
    + cbn [filter]. rewrite Hr. cbn [negb]. rewrite IH. reflexivity.
  - unfold SemanticCacheService.set, bind, externalCall, bind, external in Hset.
    cbn [tick] in Hset. rewrite He in Hset. discriminate Hset.
Qed.

(** X3.  [set] is an upsert on the key of the query: afterwards the table has
    exactly one row of that key, with the new response, and the rows of the
    other keys are the same, in the same order. *)
Theorem set_replaces_row_of_key (E : Env) (query response_ : string)
    (ttlArg : option Z) (w w' : World) :
  SemanticCacheService.set E query response_ ttlArg w = (Returned tt, w') ->
  (exists row,
     filter (fun r => String.eqb (queryHash r)
                        (SemanticCacheService.generateHash E query))
            (semantic_cache w') = [row]
     /\ response row = response_)
  /\ filter (fun r => negb (String.eqb (queryHash r)
                              (SemanticCacheService.generateHash E query)))
            (semantic_cache w')
     = filter (fun r => negb (String.eqb (queryHash r)
                                (SemanticCacheService.generateHash E query)))
              (semantic_cache w).
Proof.
  intros Hset.
  destruct (embedContent E (S (tick w)) query) as [e | msg] eqn:He.
  - rewrite (set_result E query response_ ttlArg w e He) in Hset.
    injection Hset as <-. cbn [semantic_cache].
    set (h := SemanticCacheService.generateHash E query).
    assert (Hnone : forall rows : list CacheEntry,
              filter (fun r => String.eqb (queryHash r) h)
                     (filter (fun r => negb (String.eqb (queryHash r) h)) rows)
              = []).
    { induction rows as [| r rows IH]; [reflexivity |].
      cbn [filter]. destruct (String.eqb (queryHash r) h) eqn:Hr; cbn [negb].
      - exact IH.
      - cbn [filter]. rewrite Hr. exact IH. }
    assert (Hsame : forall rows : list CacheEntry,
              filter (fun r => negb (String.eqb (queryHash r) h))
                     (filter (fun r => negb (String.eqb (queryHash r) h)) rows)
              = filter (fun r => negb (String.eqb (queryHash r) h)) rows).
    { induction rows as [| r rows IH]; [reflexivity |].
      cbn [filter]. destruct (String.eqb (queryHash r) h) eqn:Hr; cbn [negb].
      - exact IH.
      - cbn [filter]. rewrite Hr. cbn [negb]. rewrite IH. reflexivity. }
    rewrite !filter_app, Hnone, Hsame. cbn [filter queryHash].
    rewrite String.eqb_refl. cbn [negb app]. split.
    + eexists. split; reflexivity.
    + apply app_nil_r.
  - unfold SemanticCacheService.set, bind, externalCall, bind, external in Hset.
    cbn [tick] in Hset. rewrite He in Hset. discriminate Hset.
Qed.

Lemma set_replaces_row_of_key_witness :
  exists w',
    SemanticCacheService.set
      (Scripted.env (fun _ => Some [1%float]) (fun _ => Returned ""))
      "h" "fresh" None (withCache [Scripted.staleEntry] emptyWorld)
    = (Returned tt, w')
    /\ exists row,
         filter (fun r => String.eqb (queryHash r) "h") (semantic_cache w') = [row]
         /\ response row = "fresh".
Proof.
  eexists. split; [vm_compute; reflexivity |].
  apply (proj1 (set_replaces_row_of_key
                  (Scripted.env (fun _ => Some [1%float]) (fun _ => Returned ""))
                  "h" "fresh" None (withCache [Scripted.staleEntry] emptyWorld)
                  _ eq_refl)).
Defined.

(** X4.  [invalidate] undoes [set]: after [set(q, r)] and [invalidate(q)] the
    table holds the rows of the other keys that it held before, and no row
    of the key of [q]. *)
Theorem invalidate_after_set (E : Env) (query response_ : string)
    (ttlArg : option Z) (w w1 : World) :
  SemanticCacheService.set E query response_ ttlArg w = (Returned tt, w1) ->
  exists w2,
    SemanticCacheService.invalidate E query w1 = (Returned tt, w2)
    /\ semantic_cache w2
       = filter (fun r => negb (String.eqb (queryHash r)
                                  (SemanticCacheService.generateHash E query)))
                (semantic_cache w)
    /\ forall row, In row (semantic_cache w2) ->
         queryHash row <> SemanticCacheService.generateHash E query.
Proof.
  intros Hset.
  pose proof (set_other_rows E query response_ ttlArg w w1 Hset) as Hothers.
  eexists. split; [reflexivity |].
  cbn [semantic_cache withCache Sqlite.eqParam]. split; [exact Hothers |].
  intros row Hin Heq. apply filter_In in Hin. destruct Hin as [_ Hneq].
  rewrite Heq, String.eqb_refl in Hneq. discriminate Hneq.
Qed.

Lemma invalidate_after_set_witness :
  exists w1 w2,
    SemanticCacheService.set
      (Scripted.env (fun _ => Some [1%float]) (fun _ => Returned ""))
      "q" "r" None (withCache [Scripted.staleEntry] emptyWorld)
    = (Returned tt, w1)
    /\ SemanticCacheService.invalidate
         (Scripted.env (fun _ => Some [1%float]) (fun _ => Returned ""))
         "q" w1 = (Returned tt, w2)
    /\ semantic_cache w2 = [Scripted.staleEntry].
Proof.
  destruct (invalidate_after_set
              (Scripted.env (fun _ => Some [1%float]) (fun _ => Returned ""))
              "q" "r" None (withCache [Scripted.staleEntry] emptyWorld) _ eq_refl)
    as [w2 [Hinv [Hcache _]]].
  eexists. exists w2. split; [| split; [exact Hinv |]].
  - reflexivity.
  - rewrite Hcache. reflexivity.
Defined.

(** ** GeminiDispatcher and TaskPyramid *)

(** [get] returns the response of the last row of the table when that row
    has no TTL and a stored vector more similar to the query than the
    threshold and than every vector before it. *)
Lemma get_last_row (E : Env) (query : string) (threshold : float) (w : World)
    (e stored : list float) (rows : list CacheEntry) (last : CacheEntry) :
  embedContent E (tick w) query = Returned (Some e) ->
  semantic_cache w = (rows ++ [last])%list ->
  ttl last = None ->
  semanticVector last = Some stored ->
  PrimFloat.ltb threshold (SemanticCacheService.cosineSimilarity e stored) = true ->
  (forall row v, In row rows -> semanticVector row = Some v ->
     PrimFloat.ltb (SemanticCacheService.cosineSimilarity e v)
       (SemanticCacheService.cosineSimilarity e stored) = true) ->
  exists w',
    SemanticCacheService.get E query threshold w
    = (Returned (Some (response last)), w').
Proof.
  intros He Hcache Httl Hvec Hthreshold Hothers.
  unfold SemanticCacheService.get, externalCall.
  unfold bind at 1. unfold bind at 1. cbn [external]. rewrite He.
  cbn [semantic_cache]. rewrite Hcache, map_app. cbn [map].
  match goal with
  | |- context [SemanticCacheService.scan E e (?rs ++ [?l]) None threshold ?w0] =>
      destruct (scan_last_row E e stored _ l rs Httl Hvec eq_refl) with
        (bestMatch := @None string) (highestSimilarity := threshold) (w := w0)
        as [w' Hscan]
  end.
  - intros row v Hin Hv. apply in_map_iff in Hin.
    destruct Hin as [row0 [<- Hin]]. exact (Hothers row0 v Hin Hv).
  - exact Hthreshold.
  - exists w'. exact Hscan.
Qed.

(** X5.  A response written by [set] is served by [sendMessage] from the cache,
    whatever the model would answer: when the embedding of the prompt is
    the same at every call, more similar to its stored copy than the
    default threshold and than every vector stored for another prompt, and
    the response is not empty, the next [sendMessage] for the prompt
    returns the response and leaves the table as it is. *)
Theorem sendMessage_served_from_cache (E : Env) (quest_ : Quest)
    (prompt response_ : string) (ttlArg : option Z) (e : list float)
    (w w1 : World)
    (model : nat -> string -> string -> Completion (list Chunk)) :
  (forall n, embedContent E n prompt = Returned (Some e)) ->
  PrimFloat.ltb SemanticCacheService.defaultSimilarityThreshold
    (SemanticCacheService.cosineSimilarity e (Js.jsonNumbers e)) = true ->
  (forall row v, In row (semantic_cache w) ->
     queryHash row <> SemanticCacheService.generateHash E prompt ->
     semanticVector row = Some v ->
     PrimFloat.ltb (SemanticCacheService.cosineSimilarity e v)
       (SemanticCacheService.cosineSimilarity e (Js.jsonNumbers e)) = true) ->
  response_ <> "" ->
  SemanticCacheService.set E prompt response_ ttlArg w = (Returned tt, w1) ->
  exists w2,
    GeminiDispatcher.sendMessage (Vocabulary.withModel E model) quest_ prompt w1
    = (Returned response_, w2)
    /\ semantic_cache w2 = semantic_cache w1.
Proof.
  intros Hembed Hthreshold Hothers Hnonempty Hset.
  rewrite (set_result E prompt response_ ttlArg w _ (Hembed _)) in Hset.
  injection Hset as <-. cbn [option_map].
  match goal with
  | |- context [GeminiDispatcher.sendMessage _ _ _ ?w0] => set (w1 := w0)
  end.
  destruct (get_last_row (Vocabulary.withModel E model) prompt
              SemanticCacheService.defaultSimilarityThreshold w1 e
              (Js.jsonNumbers e) _ _ (Hembed _) eq_refl eq_refl eq_refl
              Hthreshold) as [w2 Hget].
  - intros row v Hin Hv. apply filter_In in Hin. destruct Hin as [Hin Hneq].
    apply (Hothers row v Hin); [| exact Hv].
    intros Heq. rewrite Heq, String.eqb_refl in Hneq. discriminate Hneq.
  - exists w2. split.
    + unfold GeminiDispatcher.sendMessage.
      rewrite (bind_returned _ _ _ _ _ Hget). cbn [response].
      destruct response_ as [| c rest]; [exfalso; apply Hnonempty; reflexivity |].
      reflexivity.
    + pose proof (get_keeps_cache (Vocabulary.withModel E model) prompt
                    SemanticCacheService.defaultSimilarityThreshold w1) as Hkeep.
      rewrite Hget in Hkeep. exact Hkeep.
Qed.

(** A cached answer is served while the model is not available. *)
Lemma sendMessage_served_from_cache_witness :
  exists w2,
    GeminiDispatcher.sendMessage
      (Vocabulary.withModel
         (Scripted.env (fun _ => Some [1%float; 1%float]) Scripted.answers)
         (fun _ _ _ => Threw "model unavailable"))
      Scripted.quest0 "prompt"
      (snd (SemanticCacheService.set
              (Scripted.env (fun _ => Some [1%float; 1%float]) Scripted.answers)
              "prompt" "cached answer" None emptyWorld))
    = (Returned "cached answer", w2).
Proof.
  destruct (sendMessage_served_from_cache
              (Scripted.env (fun _ => Some [1%float; 1%float]) Scripted.answers)
              Scripted.quest0 "prompt" "cached answer" None
              [1%float; 1%float] emptyWorld
              (snd (SemanticCacheService.set
                      (Scripted.env (fun _ => Some [1%float; 1%float])
                         Scripted.answers)
                      "prompt" "cached answer" None emptyWorld))
              (fun _ _ _ => Threw "model unavailable"))
    as [w2 [Hsend _]].
  - intros n. reflexivity.
  - vm_compute. reflexivity.
  - intros row v [].
  - discriminate.
  - vm_compute. reflexivity.
  - exists w2. exact Hsend.
Defined.






Lemma atomicLoop_results (E : Env) (quest_ : Quest) (tasks : list OperationalTask) :
  forall acc w results w',
    TaskPyramidImpl.atomicLoop E quest_ tasks acc w = (Returned results, w') ->
    map result_task results = (map result_task acc ++ tasks)%list
    /\ (Forall (fun r => nextState r = Some "done"
                         \/ nextState r = Some "operational") acc ->
        Forall (fun r => nextState r = Some "done"
                         \/ nextState r = Some "operational") results).
Proof.
  induction tasks as [| task_ rest IH]; intros acc w results w' Hloop.
  - cbn in Hloop. injection Hloop as <- _. rewrite app_nil_r. auto.
  - cbn [TaskPyramidImpl.atomicLoop] in Hloop. apply bind_inv in Hloop.
    destruct Hloop as [r [w1 [Hdispatch Hrest]]].
    unfold GeminiDispatcher.dispatchAtomic in Hdispatch.
    apply bind_inv in Hdispatch. destruct Hdispatch as [outcome_ [w0 [_ Hr]]].
    unfold ret in Hr. injection Hr as <- _.
    destruct (IH _ _ _ _ Hrest) as [Htasks Hstates]. split.
    + rewrite Htasks, map_app, <- app_assoc. reflexivity.
    + intros Hacc. apply Hstates. apply Forall_app. split; [exact Hacc |].
      constructor; [| constructor]. cbn [nextState].
      destruct (Js.includes (Js.toLowerCase outcome_) "success"); auto.
Qed.

(** X7.  When [executeAtomicLevel] resolves, it carries one result per task, in
    the order of the tasks, and every result proposes ['done'] or
    ['operational'] as the next state. *)
Theorem executeAtomicLevel_one_result_per_task (E : Env) (quest_ : Quest)
    (tasks : list OperationalTask) (w w' : World) (results : list AtomicResult) :
  executeAtomicLevel (TaskPyramidImpl.new E quest_) (Some tasks) w
  = (Returned results, w') ->
  map result_task results = tasks
  /\ Forall (fun r => nextState r = Some "done"
                      \/ nextState r = Some "operational") results.
Proof.
  intros H. cbn in H. destruct (atomicLoop_results E quest_ tasks [] w results w' H)
    as [Htasks Hstates].
  split; [exact Htasks | apply Hstates; constructor].
Qed.

Lemma executeAtomicLevel_one_result_per_task_witness :
  exists results w',
    executeAtomicLevel
      (TaskPyramidImpl.new (Scripted.env Scripted.noEmbedding Scripted.answers)
         Scripted.quest0)
      (Some [Scripted.oneTask; Scripted.oneTask]) emptyWorld
    = (Returned results, w')
    /\ map result_task results = [Scripted.oneTask; Scripted.oneTask].
Proof.
  assert (Hrun : exists results w',
            executeAtomicLevel
              (TaskPyramidImpl.new
                 (Scripted.env Scripted.noEmbedding Scripted.answers)
                 Scripted.quest0)
              (Some [Scripted.oneTask; Scripted.oneTask]) emptyWorld
            = (Returned results, w'))
    by (eexists; eexists; vm_compute; reflexivity).
  destruct Hrun as [results [w' Hrun]]. exists results, w'.
  split; [exact Hrun |].
  exact (proj1 (executeAtomicLevel_one_result_per_task _ _ _ _ _ _ Hrun)).
Defined.

(** ** LevelCoordinator: what a run keeps *)

(** What one turn returns is what [try] and [catch] leave for the call of
    the state. *)
Lemma iteration_inv (E : Env) (taskPyramid : TaskPyramid) (l l1 : Locals)
    (w w1 : World) :
  iteration E taskPyramid l w = (Returned l1, w1) ->
  exists call,
    Spec.levelOf call = currentState l /\ l1 = locals (tryCatch E l call).
Proof.
  intros Hiter.
  destruct (callLevel_returns taskPyramid l (snd (external (clock E) w)))
    as [call [w0 [Hcall Hlevel]]].
  destruct (iteration_returns E taskPyramid l w w0 call Hcall) as [w' Hiter'].
  rewrite Hiter' in Hiter. injection Hiter as <- _.
  exists call. split; [exact Hlevel | reflexivity].
Qed.

(** X8.  The plans are made once.  From the moment the coordinator is past the
    tactical level, whatever number of turns it takes (the loop between the
    operational and the atomic level included), it does not come back to a
    planning level and the strategic and the tactical plan stay the
    same. *)
Theorem plans_made_once (E : Env) (taskPyramid : TaskPyramid)
    (l l' : Locals) (w w' : World) :
  Spec.Turns E taskPyramid l w l' w' ->
  Vocabulary.pastPlanning l ->
  Vocabulary.pastPlanning l'
  /\ strategicPlan l' = strategicPlan l
  /\ tacticalPlan l' = tacticalPlan l.
Proof.
  induction 1 as [l w | l l1 l2 w w1 w2 Hnot Hiter _ IH]; intros Hpast.
  - auto.
  - destruct (iteration_inv E taskPyramid l l1 w w1 Hiter) as [call [Hlevel ->]].
    assert (Hstep : Vocabulary.pastPlanning (locals (tryCatch E l call))
                    /\ strategicPlan (locals (tryCatch E l call)) = strategicPlan l
                    /\ tacticalPlan (locals (tryCatch E l call)) = tacticalPlan l).
    { unfold Vocabulary.pastPlanning in *.
      destruct call as [[plan | e] | [plan | e] | [tasks | e] | [results | e] |];
        cbn [Spec.levelOf] in Hlevel; rewrite <- Hlevel in Hpast;
        cbn [tryCatch locals caught withState currentState strategicPlan
               tacticalPlan];
        try (destruct Hpast as [Hp | [Hp | Hp]]; discriminate Hp);
        try (repeat split; auto; fail).
      repeat split; try reflexivity.
      unfold afterAtomic. destruct (rev results) as [| r earlier]; [auto |].
      destruct (nextState r) as [next |]; [| auto].
      destruct (String.eqb next "done"); [auto |].
      destruct (String.eqb next "operational"); auto. }
    destruct Hstep as [Hpast1 [Hs1 Ht1]].
    destruct (IH Hpast1) as [Hpast2 [Hs2 Ht2]].
    split; [exact Hpast2 | split; congruence].
Qed.

Lemma plans_made_once_witness :
  exists l' w',
    Spec.Turns (Scripted.env Scripted.noEmbedding Scripted.answers)
      (TaskPyramidImpl.new (Scripted.env Scripted.noEmbedding Scripted.answers)
         Scripted.quest0)
      {| currentState := OPERATIONAL; strategicPlan := Some "PLAN";
         tacticalPlan := Some "MILESTONES"; operationalTasks := None;
         atomicResults := None |}
      emptyWorld l' w'
    /\ currentState l' = ATOMIC
    /\ tacticalPlan l' = Some "MILESTONES".
Proof.
  assert (Hiter : exists l1 w1,
            iteration (Scripted.env Scripted.noEmbedding Scripted.answers)
              (TaskPyramidImpl.new
                 (Scripted.env Scripted.noEmbedding Scripted.answers)
                 Scripted.quest0)
              {| currentState := OPERATIONAL; strategicPlan := Some "PLAN";
                 tacticalPlan := Some "MILESTONES"; operationalTasks := None;
                 atomicResults := None |}
              emptyWorld = (Returned l1, w1)
            /\ currentState l1 = ATOMIC)
    by (eexists; eexists; split; vm_compute; reflexivity).
  destruct Hiter as [l1 [w1 [Hiter Hstate]]]. exists l1, w1.
  assert (Hnot : currentState
                   {| currentState := OPERATIONAL; strategicPlan := Some "PLAN";
                      tacticalPlan := Some "MILESTONES"; operationalTasks := None;
                      atomicResults := None |} <> DONE) by discriminate.
  pose proof (Spec.turns_more _ _ _ l1 l1 _ w1 w1
                Hnot Hiter (Spec.turns_none _ _ l1 w1)) as Hturns.
  split; [exact Hturns | split; [exact Hstate |]].
  destruct (plans_made_once _ _ _ _ _ _ Hturns) as [_ [_ Htactical]].
  - left. reflexivity.
  - exact Htactical.
Defined.

Lemma tryCatch_plansDefined (E : Env) (l : Locals) (call : LevelCall) :
  Vocabulary.plansDefined l ->
  Spec.levelOf call = currentState l ->
  Vocabulary.plansDefined (locals (tryCatch E l call)).
Proof.
  unfold Vocabulary.plansDefined. intros Hl Hlevel.
  destruct call as [[plan | e] | [plan | e] | [tasks | e] | [results | e] |];
    cbn [Spec.levelOf] in Hlevel; rewrite <- Hlevel in Hl;
    cbn [tryCatch locals caught withState currentState strategicPlan
           tacticalPlan operationalTasks];
    try exact I; try discriminate;
    try (repeat split; try discriminate; tauto).
  destruct (afterAtomic results); try exact I; tauto.
Qed.

(** X9.  The non-null assertions of [coordinate] hold.  At every point of a run
    that starts from the initial state, the strategic plan is defined when
    the tactical level is called, the tactical plan when the operational
    level is called, and the task list when the atomic level is called: no
    call of the TaskPyramid receives [undefined]. *)
Theorem coordinate_plans_defined (E : Env) (taskPyramid : TaskPyramid)
    (l : Locals) (w w' : World) :
  Spec.Turns E taskPyramid initialLocals w l w' ->
  Vocabulary.plansDefined l.
Proof.
  assert (Hgen : forall l0 w0 l1 w1,
            Spec.Turns E taskPyramid l0 w0 l1 w1 ->
            Vocabulary.plansDefined l0 -> Vocabulary.plansDefined l1).
  { induction 1 as [l0 w0 | l0 l1 l2 w0 w1 w2 Hnot Hiter _ IH]; intros Hl0.
    - exact Hl0.
    - destruct (iteration_inv E taskPyramid l0 l1 w0 w1 Hiter)
        as [call [Hlevel ->]].
      apply IH. apply tryCatch_plansDefined; assumption. }
  intros Hturns. apply (Hgen _ _ _ _ Hturns). exact I.
Qed.

Lemma coordinate_plans_defined_witness :
  exists l w',
    Spec.Turns (Scripted.env Scripted.noEmbedding Scripted.answers)
      (TaskPyramidImpl.new (Scripted.env Scripted.noEmbedding Scripted.answers)
         Scripted.quest0)
      initialLocals emptyWorld l w'
    /\ currentState l = TACTICAL
    /\ strategicPlan l <> None.
Proof.
  assert (Hiter : exists l1 w1,
            iteration (Scripted.env Scripted.noEmbedding Scripted.answers)
              (TaskPyramidImpl.new
                 (Scripted.env Scripted.noEmbedding Scripted.answers)
                 Scripted.quest0)
              initialLocals emptyWorld = (Returned l1, w1)
            /\ currentState l1 = TACTICAL)
    by (eexists; eexists; split; vm_compute; reflexivity).
  destruct Hiter as [l1 [w1 [Hiter Hstate]]]. exists l1, w1.
  assert (Hnot : currentState initialLocals <> DONE) by discriminate.
  pose proof (Spec.turns_more _ _ _ l1 l1 _ w1 w1
                Hnot Hiter (Spec.turns_none _ _ l1 w1)) as Hturns.
  split; [exact Hturns | split; [exact Hstate |]].
  pose proof (coordinate_plans_defined _ _ _ _ _ Hturns) as Hdefined.
  unfold Vocabulary.plansDefined in Hdefined. rewrite Hstate in Hdefined.
  exact Hdefined.
Defined.

(** X10.  A failed level ends the run at once.  When the call of the current
    level raises an error with message [e], the loop stops after this turn
    without calling any level again: only the state changes (to DONE), and
    one row is added to the log, of status ['failure'], with the output
    ["Error: " ++ e] and the message as its error (NULL for an empty
    message). *)
Theorem failure_ends_run (E : Env) (taskPyramid : TaskPyramid) (l : Locals)
    (w w1 : World) (call : LevelCall) (e : string) (fuel : nat) :
  currentState l <> DONE ->
  callLevel taskPyramid l (snd (external (clock E) w)) = (Returned call, w1) ->
  call = StrategicCall (Threw e) \/ call = TacticalCall (Threw e)
  \/ call = OperationalCall (Threw e) \/ call = AtomicCall (Threw e) ->
  exists w' row,
    loop (S fuel) E taskPyramid l w = (Returned (Some (withState DONE l)), w')
    /\ execution_logs w' = (execution_logs w1 ++ [row])%list
    /\ log_status row = failure
    /\ output row = "Error: " ++ e
    /\ log_error row = (if Js.truthyString (Some e) then Some e else None).
Proof.
  intros Hnot Hcall Hthrew.
  assert (Htry : tryCatch E l call = caught l e)
    by (destruct Hthrew as [-> | [-> | [-> | ->]]]; reflexivity).
  assert (Hiter : exists w' row,
            iteration E taskPyramid l w = (Returned (withState DONE l), w')
            /\ execution_logs w' = (execution_logs w1 ++ [row])%list
            /\ log_status row = failure
            /\ output row = "Error: " ++ e
            /\ log_error row = (if Js.truthyString (Some e) then Some e else None)).
  { unfold iteration. unfold bind at 1. cbn [external snd] in *.
    unfold bind at 1. rewrite Hcall, Htry.
    unfold bind, external, LearningEngineService.logExecution, bind, external, ret.
    cbn. do 2 eexists. repeat split. }
  destruct Hiter as [w' [row [Hiter Hrow]]]. exists w', row.
  split; [| exact Hrow].
  cbn [loop]. destruct (currentState l) eqn:Hstate;
    try (rewrite (bind_returned _ _ _ _ _ Hiter); destruct fuel; reflexivity).
  exfalso. apply Hnot. reflexivity.
Qed.

Lemma failure_ends_run_witness :
  exists w' row,
    loop 5 (Scripted.env Scripted.noEmbedding Scripted.unavailable)
      (TaskPyramidImpl.new
         (Scripted.env Scripted.noEmbedding Scripted.unavailable) Scripted.quest0)
      initialLocals emptyWorld
    = (Returned (Some (withState DONE initialLocals)), w')
    /\ output row = "Error: model unavailable".
Proof.
  destruct (failure_ends_run
              (Scripted.env Scripted.noEmbedding Scripted.unavailable)
              (TaskPyramidImpl.new
                 (Scripted.env Scripted.noEmbedding Scripted.unavailable)
                 Scripted.quest0)
              initialLocals emptyWorld
              (snd (callLevel
                      (TaskPyramidImpl.new
                         (Scripted.env Scripted.noEmbedding Scripted.unavailable)
                         Scripted.quest0)
                      initialLocals
                      (snd (external
                              (clock (Scripted.env Scripted.noEmbedding
                                        Scripted.unavailable))
                              emptyWorld))))
              (StrategicCall (Threw "model unavailable"))
              "model unavailable" 4)
    as [w' [row [Hloop [_ [_ [Houtput _]]]]]].
  - discriminate.
  - vm_compute. reflexivity.
  - left. reflexivity.
  - exists w', row. split; [exact Hloop | exact Houtput].
Defined.

(** ** What the pipeline leaves alone *)

(** An observation of the state that depends neither on the tick nor on
    the cache table is kept by every call of the TaskPyramid. *)
Section PipelineKeeps.

Variable E : Env.
Context {T : Type} (f : World -> T).
Hypothesis f_tick :
  forall w n, f {| quests := quests w; knowledge_items := knowledge_items w;
                   semantic_cache := semantic_cache w;
                   execution_logs := execution_logs w; tick := n |} = f w.
Hypothesis f_cache : forall rows w, f (withCache rows w) = f w.

Ltac keeps_f :=
  first
    [ apply keeps_ret
    | apply keeps_throw
    | apply keeps_external; exact f_tick
    | apply keeps_externalCall; exact f_tick
    | apply keeps_attempt
    | apply keeps_bind; [| intros ?] ].

Lemma scan_keeps (queryEmbedding : list float)
    (rows : list SemanticCacheService.SelectedRow) :
  forall bestMatch highestSimilarity,
    keeps f (SemanticCacheService.scan E queryEmbedding rows bestMatch
               highestSimilarity).
Proof.
  induction rows as [| row rest IH]; intros bestMatch highest; simpl.
  - keeps_f.
  - repeat keeps_f.
    destruct (SemanticCacheService.expired _ row).
    + keeps_f; [intros w; apply f_cache | apply IH].
    + destruct (SemanticCacheService.sel_semanticVector row) as [v |];
        [| apply IH].
      destruct (PrimFloat.ltb _ _); apply IH.
Qed.

Lemma sendMessage_keeps (quest_ : Quest) (prompt : string) :
  keeps f (GeminiDispatcher.sendMessage E quest_ prompt).
Proof.
  unfold GeminiDispatcher.sendMessage. keeps_f.
  - unfold SemanticCacheService.get. repeat keeps_f.
    destruct a as [queryEmbedding |]; [| keeps_f].
    intros w. apply scan_keeps.
  - destruct (Js.truthyString a); [keeps_f |].
    keeps_f; [keeps_f |]. keeps_f; [| keeps_f].
    unfold SemanticCacheService.set. repeat keeps_f.
    intros w. unfold SemanticCacheService.insertOrReplace. cbn. apply f_cache.
Qed.

Lemma atomicLoop_keeps (quest_ : Quest) (tasks : list OperationalTask) :
  forall results, keeps f (TaskPyramidImpl.atomicLoop E quest_ tasks results).
Proof.
  induction tasks as [| task_ rest IH]; intros results; simpl.
  - keeps_f.
  - keeps_f; [| apply IH].
    unfold GeminiDispatcher.dispatchAtomic.
    keeps_f; [apply sendMessage_keeps | keeps_f].
Qed.

Lemma callLevel_keeps (quest_ : Quest) (l : Locals) :
  keeps f (callLevel (TaskPyramidImpl.new E quest_) l).
Proof.
  unfold callLevel, TaskPyramidImpl.new.
  destruct (currentState l);
    cbn [executeStrategicLevel executeTacticalLevel executeOperationalLevel
           executeAtomicLevel];
    try (apply keeps_bind; [apply keeps_attempt | intros ?; apply keeps_ret]).
  - unfold GeminiDispatcher.dispatchStrategic.
    keeps_f; [| apply sendMessage_keeps].
    intros w. rewrite retrieveKnowledge_state. reflexivity.
  - apply sendMessage_keeps.
  - unfold GeminiDispatcher.dispatchOperational.
    keeps_f; [apply sendMessage_keeps |].
    destruct (parseTasks E a); keeps_f.
  - destruct (operationalTasks l); [apply atomicLoop_keeps | keeps_f].
  - keeps_f.
Qed.

End PipelineKeeps.

(** One turn with the pyramid of a quest adds one row to the log, for that
    quest, and leaves the knowledge base alone. *)
Lemma iteration_appends_row (E : Env) (quest_ : Quest) (l : Locals) (w : World) :
  exists l' w' row,
    iteration E (TaskPyramidImpl.new E quest_) l w = (Returned l', w')
    /\ execution_logs w' = (execution_logs w ++ [row])%list
    /\ questId row = quest_id quest_
    /\ knowledge_items w' = knowledge_items w.
Proof.
  destruct (callLevel_returns (TaskPyramidImpl.new E quest_) l
              (snd (external (clock E) w))) as [call [w1 [Hcall _]]].
  pose proof (callLevel_keeps E execution_logs (fun _ _ => eq_refl)
                (fun _ _ => eq_refl) quest_ l (snd (external (clock E) w)))
    as Hlogs.
  pose proof (callLevel_keeps E knowledge_items (fun _ _ => eq_refl)
                (fun _ _ => eq_refl) quest_ l (snd (external (clock E) w)))
    as Hknow.
  rewrite Hcall in Hlogs, Hknow. cbn [snd external] in Hlogs, Hknow.
  unfold iteration. unfold bind at 1. cbn [external snd] in *.
  unfold bind at 1. rewrite Hcall.
  unfold bind, external, LearningEngineService.logExecution, bind, external, ret.
  cbn. rewrite Hlogs, Hknow. do 3 eexists. repeat split.
Qed.

Lemma loop_appends_rows (E : Env) (quest_ : Quest) (fuel : nat) :
  forall l w,
    exists rows,
      execution_logs (snd (loop fuel E (TaskPyramidImpl.new E quest_) l w))
      = (execution_logs w ++ rows)%list
      /\ Forall (fun row => questId row = quest_id quest_) rows
      /\ (List.length rows <= fuel)%nat
      /\ knowledge_items (snd (loop fuel E (TaskPyramidImpl.new E quest_) l w))
         = knowledge_items w.
Proof.
  induction fuel as [| fuel IH]; intros l w.
  - exists []. cbn [loop]. rewrite app_nil_r.
    destruct (currentState l); cbn; auto.
  - cbn [loop].
    destruct (iteration_appends_row E quest_ l w)
      as [l1 [w1 [row [Hiter [Hlogs [Hid Hknow]]]]]].
    destruct (IH l1 w1) as [rows [Hrows [Hids [Hlen Hknow2]]]].
    destruct (currentState l);
      try (rewrite (bind_returned _ _ _ _ _ Hiter);
           exists (row :: rows); rewrite Hrows, Hlogs, <- app_assoc;
           split; [reflexivity |];
           split; [constructor; assumption |];
           split; [cbn [List.length]; lia | congruence]).
    exists []. cbn. rewrite app_nil_r. repeat split; auto; lia.
Qed.

(** X11.  [executeQuest] only appends to the execution log.  Whatever the run
    does (ends, fails, is cut, or finds no quest), the rows that were in the
    log are still there in the same order, the rows added after them all
    carry the id of the quest, at most one per turn, and the knowledge base
    is as it was. *)
Theorem executeQuest_appends_log_rows (fuel : nat) (E : Env) (questId_ : string)
    (w : World) :
  exists rows,
    execution_logs (snd (QuestManager.executeQuest fuel E questId_ w))
    = (execution_logs w ++ rows)%list
    /\ Forall (fun row => questId row = questId_) rows
    /\ (List.length rows <= fuel)%nat
    /\ knowledge_items (snd (QuestManager.executeQuest fuel E questId_ w))
       = knowledge_items w.
Proof.
  assert (Hrun :
    snd (QuestManager.executeQuest fuel E questId_ w)
    = match find (fun row => String.eqb (quest_id row) questId_) (quests w) with
      | Some quest_ =>
          snd (loop fuel E (TaskPyramidImpl.new E quest_) initialLocals w)
      | None => w
      end).
  { unfold QuestManager.executeQuest, QuestManager.getQuest,
      QuestRepository.findById.
    unfold bind at 1.
    destruct (find (fun row => String.eqb (quest_id row) questId_) (quests w))
      as [quest_ |]; [| reflexivity].
    unfold coordinate, bind.
    destruct (loop fuel E (TaskPyramidImpl.new E quest_) initialLocals w)
      as [[final | e] w']; reflexivity. }
  rewrite Hrun.
  destruct (find (fun row => String.eqb (quest_id row) questId_) (quests w))
    as [quest_ |] eqn:Hfind.
  - apply find_some in Hfind. destruct Hfind as [_ Hid].
    apply String.eqb_eq in Hid. rewrite <- Hid.
    apply loop_appends_rows.
  - exists []. rewrite app_nil_r. repeat split; auto. cbn. lia.
Qed.

(** ** QuestRepository and QuestManager *)

Lemma find_upsert_same (q : Quest) (rows : list Quest) :
  find (fun row => String.eqb (quest_id row) (quest_id q))
       (QuestRepository.upsert q rows)
  = Some (Vocabulary.stored q (find (fun row => String.eqb (quest_id row) (quest_id q)) rows)).
Proof.
  induction rows as [| row rest IH]; cbn [QuestRepository.upsert find].
  - rewrite String.eqb_refl. destruct q; reflexivity.
  - destruct (String.eqb (quest_id row) (quest_id q)) eqn:Hrow; cbn [find quest_id].
    + apply String.eqb_eq in Hrow. rewrite Hrow, String.eqb_refl.
      reflexivity.
    + rewrite Hrow. exact IH.
Qed.

Lemma find_upsert_other (q : Quest) (id : string) (rows : list Quest) :
  id <> quest_id q ->
  find (fun row => String.eqb (quest_id row) id) (QuestRepository.upsert q rows)
  = find (fun row => String.eqb (quest_id row) id) rows.
Proof.
  intros Hid. induction rows as [| row rest IH]; cbn [QuestRepository.upsert find].
  - destruct (String.eqb_spec (quest_id q) id) as [Heq | _];
      [exfalso; apply Hid; symmetry; exact Heq | reflexivity].
  - destruct (String.eqb (quest_id row) (quest_id q)) eqn:Hrow; cbn [find quest_id].
    + apply String.eqb_eq in Hrow.
      destruct (String.eqb_spec (quest_id row) id) as [Heq | _];
        [exfalso; apply Hid; congruence | reflexivity].
    + rewrite IH. reflexivity.
Qed.

Lemma upsert_ids (q : Quest) (rows : list Quest) :
  map quest_id (QuestRepository.upsert q rows)
  = if existsb (fun row => String.eqb (quest_id row) (quest_id q)) rows
    then map quest_id rows
    else (map quest_id rows ++ [quest_id q])%list.
Proof.
  induction rows as [| row rest IH]; cbn [QuestRepository.upsert map existsb];
    [reflexivity |].
  destruct (String.eqb (quest_id row) (quest_id q)) eqn:Hrow; cbn [orb map quest_id].
  - reflexivity.
  - rewrite IH.
    destruct (existsb (fun row0 => String.eqb (quest_id row0) (quest_id q)) rest);
      reflexivity.
Qed.

(** X12.  [save] is an upsert that keeps the primary key of the quests table.
    Ids that are pairwise different stay so and none is lost; the quest
    read back under the id of [q] has the fields of [q], except that a
    quest saved again keeps the creation time of its row; the quests of the
    other ids read back as before. *)
Theorem save_is_upsert (q : Quest) (w : World) :
  NoDup (map quest_id (quests w)) ->
  exists w',
    QuestRepository.save q w = (Returned tt, w')
    /\ NoDup (map quest_id (quests w'))
    /\ (forall id, In id (map quest_id (quests w)) ->
                   In id (map quest_id (quests w')))
    /\ fst (QuestRepository.findById (quest_id q) w')
       = Returned
           (Some (Vocabulary.stored q
                    (find (fun row => String.eqb (quest_id row) (quest_id q))
                          (quests w))))
    /\ (forall id, id <> quest_id q ->
          fst (QuestRepository.findById id w')
          = fst (QuestRepository.findById id w)).
Proof.
  intros Hnodup. eexists. split; [reflexivity |].
  cbn [quests withQuests QuestRepository.findById fst].
  rewrite upsert_ids, find_upsert_same.
  destruct (existsb (fun row => String.eqb (quest_id row) (quest_id q)) (quests w))
    eqn:Hex.
  - repeat split; auto.
    intros id Hid. rewrite (find_upsert_other q id _ Hid). reflexivity.
  - repeat split.
    + apply NoDup_app; [exact Hnodup | repeat constructor; intros [] |].
      intros id Hin [Heq | []]. subst id.
      apply in_map_iff in Hin. destruct Hin as [row [Hrow Hin]].
      assert (Htrue : existsb (fun row0 => String.eqb (quest_id row0) (quest_id q))
                        (quests w) = true).
      { apply existsb_exists. exists row. split; [exact Hin |].
        rewrite Hrow. apply String.eqb_refl. }
      rewrite Htrue in Hex. discriminate Hex.
    + intros id Hin. apply in_or_app. left. exact Hin.
    + intros id Hid. rewrite (find_upsert_other q id _ Hid). reflexivity.
Qed.

Lemma save_is_upsert_witness :
  exists w',
    QuestRepository.save
      {| quest_id := "quest-0"; config := Scripted.config0; status := failed;
         currentLevel := level_atomic; createdAt := 99; updatedAt := 99;
         quest_error := Some "boom" |}
      (withQuests [Scripted.quest0] emptyWorld) = (Returned tt, w')
    /\ fst (QuestRepository.findById "quest-0" w')
       = Returned
           (Some {| quest_id := "quest-0"; config := Scripted.config0;
                    status := failed; currentLevel := level_atomic;
                    createdAt := 0; updatedAt := 99;
                    quest_error := Some "boom" |}).
Proof.
  destruct (save_is_upsert
              {| quest_id := "quest-0"; config := Scripted.config0;
                 status := failed; currentLevel := level_atomic;
                 createdAt := 99; updatedAt := 99; quest_error := Some "boom" |}
              (withQuests [Scripted.quest0] emptyWorld))
    as [w' [Hsave [_ [_ [Hfind _]]]]].
  - repeat constructor. intros [].
  - exists w'. split; [exact Hsave | exact Hfind].
Defined.

Lemma find_none_unknown (id : string) (rows : list Quest) :
  (forall row, In row rows -> quest_id row <> id) ->
  find (fun row => String.eqb (quest_id row) id) rows = None.
Proof.
  intros Hunknown.
  destruct (find (fun row => String.eqb (quest_id row) id) rows) as [row |] eqn:Hfind;
    [| reflexivity].
  apply find_some in Hfind. destruct Hfind as [Hin Heq].
  apply String.eqb_eq in Heq. destruct (Hunknown row Hin Heq).
Qed.

(** X13.  A quest that [createQuest] returns is read back unchanged by
    [getQuest], pending and at no level, when its new id is not already in
    the table; the quests of the other ids read back as before. *)
Theorem createQuest_then_getQuest (E : Env) (config_ : QuestConfig)
    (w w1 : World) (q : Quest) :
  QuestManager.createQuest E config_ w = (Returned q, w1) ->
  (forall row, In row (quests w) -> quest_id row <> quest_id q) ->
  QuestManager.getQuest (quest_id q) w1 = (Returned (Some q), w1)
  /\ config q = config_ /\ status q = pending
  /\ currentLevel q = level_none /\ quest_error q = None
  /\ (forall id, id <> quest_id q ->
        fst (QuestManager.getQuest id w1) = fst (QuestManager.getQuest id w)).
Proof.
  intros Hcreate Hfresh.
  unfold QuestManager.createQuest, bind, external, QuestRepository.save, ret
    in Hcreate.
  cbn in Hcreate. injection Hcreate as <- <-.
  unfold QuestManager.getQuest, QuestRepository.findById.
  cbn [quests withQuests quest_id config status currentLevel quest_error fst].
  repeat split.
  - do 2 f_equal.
    match goal with
    | |- find _ (QuestRepository.upsert ?q0 _) = _ =>
        rewrite (find_upsert_same q0);
        rewrite (find_none_unknown (quest_id q0) (quests w) Hfresh)
    end.
    reflexivity.
  - intros id Hid.
    match goal with
    | |- context [QuestRepository.upsert ?q0 _] =>
        rewrite (find_upsert_other q0 id _ Hid)
    end.
    reflexivity.
Qed.

Lemma createQuest_then_getQuest_witness :
  exists q w1,
    QuestManager.createQuest
      (Scripted.env Scripted.noEmbedding Scripted.answers) Scripted.config0
      (withQuests [Scripted.quest0] emptyWorld) = (Returned q, w1)
    /\ QuestManager.getQuest (quest_id q) w1 = (Returned (Some q), w1).
Proof.
  assert (Hrun : exists q w1,
            QuestManager.createQuest
              (Scripted.env Scripted.noEmbedding Scripted.answers)
              Scripted.config0 (withQuests [Scripted.quest0] emptyWorld)
            = (Returned q, w1)
            /\ quest_id q = "id-0001")
    by (eexists; eexists; split; vm_compute; reflexivity).
  destruct Hrun as [q [w1 [Hrun Hid]]]. exists q, w1.
  split; [exact Hrun |].
  apply (createQuest_then_getQuest _ _ _ _ _ Hrun).
  rewrite Hid. intros row [<- | []]. discriminate.
Defined.

(** X14.  An id that is not in the quests table: [getQuest] returns [null],
    [executeQuest] rejects with 'Quest not found' and [deleteQuest] with
    'Quest with ID ... not found.'; none of them changes the state (no row
    is logged, no external call is made). *)
Theorem unknown_quest_id (E : Env) (fuel : nat) (id : string) (w : World) :
  (forall row, In row (quests w) -> quest_id row <> id) ->
  QuestManager.getQuest id w = (Returned None, w)
  /\ QuestManager.executeQuest fuel E id w = (Threw "Quest not found", w)
  /\ QuestManagerDelete.deleteQuest id w
     = (Threw ("Quest with ID " ++ id ++ " not found."), w).
Proof.
  intros Hunknown. pose proof (find_none_unknown id (quests w) Hunknown) as Hfind.
  unfold QuestManager.executeQuest, QuestManagerDelete.deleteQuest,
    QuestManager.getQuest, QuestRepository.findById, bind.
  rewrite Hfind. auto.
Qed.

Lemma unknown_quest_id_witness :
  QuestManager.executeQuest 10
    (Scripted.env Scripted.noEmbedding Scripted.answers) "non-existent-id"
    (withQuests [Scripted.quest0] emptyWorld)
  = (Threw "Quest not found", withQuests [Scripted.quest0] emptyWorld).
Proof.
  apply (unknown_quest_id
           (Scripted.env Scripted.noEmbedding Scripted.answers) 10
           "non-existent-id" (withQuests [Scripted.quest0] emptyWorld)).
  intros row [<- | []]. discriminate.
Defined.

Lemma find_filter_other (id id' : string) (rows : list Quest) :
  id' <> id ->
  find (fun row => String.eqb (quest_id row) id')
       (filter (fun row => negb (String.eqb (quest_id row) id)) rows)
  = find (fun row => String.eqb (quest_id row) id') rows.
Proof.
  intros Hid. induction rows as [| row rest IH]; [reflexivity |].
  cbn [filter find].
  destruct (String.eqb_spec (quest_id row) id) as [Heq | Hneq]; cbn [negb find].
  - destruct (String.eqb_spec (quest_id row) id') as [Heq' | _];
      [exfalso; apply Hid; congruence | exact IH].
  - rewrite IH. reflexivity.
Qed.

(** X15.  [deleteQuest] of a quest that is in the table resolves; afterwards
    [getQuest] returns [null] for its id and the quests of the other ids
    read back as before; the other tables are not touched. *)
Theorem deleteQuest_removes_quest (id : string) (w : World) (q : Quest) :
  In q (quests w) -> quest_id q = id ->
  exists w',
    QuestManagerDelete.deleteQuest id w = (Returned tt, w')
    /\ QuestManager.getQuest id w' = (Returned None, w')
    /\ (forall id', id' <> id ->
          fst (QuestManager.getQuest id' w') = fst (QuestManager.getQuest id' w))
    /\ execution_logs w' = execution_logs w
    /\ knowledge_items w' = knowledge_items w
    /\ semantic_cache w' = semantic_cache w.
Proof.
  intros Hin Hid.
  unfold QuestManagerDelete.deleteQuest, QuestRepository.findById, bind.
  destruct (find (fun row => String.eqb (quest_id row) id) (quests w))
    as [found |] eqn:Hfind.
  - eexists. split; [reflexivity |].
    unfold QuestManager.getQuest, QuestRepository.findById.
    cbn [quests withQuests fst execution_logs knowledge_items semantic_cache].
    repeat split.
    + do 2 f_equal. apply find_none_unknown. intros row Hrow Heq.
      apply filter_In in Hrow. destruct Hrow as [_ Hneq].
      rewrite Heq, String.eqb_refl in Hneq. discriminate Hneq.
    + intros id' Hid'. rewrite (find_filter_other id id' _ Hid'). reflexivity.
  - pose proof (find_none _ _ Hfind q Hin) as Hno. cbn in Hno.
    rewrite Hid, String.eqb_refl in Hno. discriminate Hno.
Qed.

Lemma deleteQuest_removes_quest_witness :
  exists w',
    QuestManagerDelete.deleteQuest "quest-0"
      (withQuests [Scripted.quest0] emptyWorld) = (Returned tt, w')
    /\ QuestManager.getQuest "quest-0" w' = (Returned None, w').
Proof.
  destruct (deleteQuest_removes_quest "quest-0"
              (withQuests [Scripted.quest0] emptyWorld) Scripted.quest0)
    as [w' [Hdelete [Hget _]]].
  - left. reflexivity.
  - reflexivity.
  - exists w'. split; [exact Hdelete | exact Hget].
Defined.

(** ** KnowledgeBaseService *)

Lemma patternCompare_percent (pattern s : list N) :
  Sqlite.patternCompare (37%N :: pattern) s
  = (Sqlite.patternCompare pattern s
     || match s with
        | [] => false
        | _ :: s' => Sqlite.patternCompare (37%N :: pattern) s'
        end)%bool.
Proof. destruct s; reflexivity. Qed.

Lemma patternCompare_percent_skip (pattern s : list N) :
  Sqlite.patternCompare pattern s = true ->
  Sqlite.patternCompare (37%N :: pattern) s = true.
Proof. intros H. rewrite patternCompare_percent, H. reflexivity. Qed.

Lemma patternCompare_percent_more (pattern before s : list N) :
  Sqlite.patternCompare (37%N :: pattern) s = true ->
  Sqlite.patternCompare (37%N :: pattern) (before ++ s) = true.
Proof.
  intros H. induction before as [| c before IH]; [exact H |].
  cbn [app]. rewrite patternCompare_percent, IH. apply orb_true_r.
Qed.

Lemma patternCompare_percent_any (s : list N) :
  Sqlite.patternCompare [37%N] s = true.
Proof.
  induction s as [| c s IH]; [reflexivity |].
  rewrite patternCompare_percent, IH. apply orb_true_r.
Qed.

Lemma list_ascii_of_string_app (a b : string) :
  list_ascii_of_string (a ++ b)
  = (list_ascii_of_string a ++ list_ascii_of_string b)%list.
Proof. induction a as [| c a IH]; cbn; [reflexivity | f_equal; exact IH]. Qed.

(** ASCII texts: their parts are ASCII texts, and SQLite reads one
    character from each of their bytes. *)
Lemma asciiText_String (c : ascii) (s : string) :
  Vocabulary.asciiText (String c s) = true <->
  Vocabulary.asciiByte c = true /\ Vocabulary.asciiText s = true.
Proof. unfold Vocabulary.asciiText. cbn. apply andb_true_iff. Qed.

Lemma asciiText_app (a b : string) :
  Vocabulary.asciiText (a ++ b) = true <->
  Vocabulary.asciiText a = true /\ Vocabulary.asciiText b = true.
Proof.
  unfold Vocabulary.asciiText.
  rewrite list_ascii_of_string_app, forallb_app. apply andb_true_iff.
Qed.

Lemma asciiByte_bounds (c : ascii) :
  Vocabulary.asciiByte c = true ->
  (0 < N_of_ascii c < 128)%N.
Proof.
  unfold Vocabulary.asciiByte. rewrite andb_true_iff, !N.ltb_lt. auto.
Qed.

Lemma characters_asciiText (s : string) :
  Vocabulary.asciiText s = true ->
  Sqlite.characters s = map N_of_ascii (list_ascii_of_string s).
Proof.
  unfold Sqlite.characters. induction s as [| c s IH]; [reflexivity |].
  intros H. apply asciiText_String in H. destruct H as [Hc Hs].
  apply asciiByte_bounds in Hc. cbn [list_ascii_of_string Sqlite.cString].
  destruct (Ascii.eqb_spec c Ascii.zero) as [-> | _].
  - cbn in Hc. lia.
  - cbn [map Sqlite.utf8Read].
    destruct (N.leb_spec 0xC0 (N_of_ascii c)) as [Hlead | _]; [lia |].
    f_equal. apply IH, Hs.
Qed.

(** SQLite's folding of case is the one of [toLowerCase] on ASCII. *)
Lemma toLower_lowerAscii (c : ascii) :
  Sqlite.toLower (N_of_ascii c) = N_of_ascii (Js.lowerAscii c).
Proof. destruct c as [[] [] [] [] [] [] [] []]; reflexivity. Qed.

Lemma matchesOne_sameLetter (a b : ascii) :
  Spec.sameLetter a b ->
  Vocabulary.asciiByte a = true -> Vocabulary.asciiByte b = true ->
  Sqlite.matchesOne (N_of_ascii b) (N_of_ascii a) = true.
Proof.
  intros Hab Ha Hb. apply asciiByte_bounds in Ha, Hb.
  apply sameLetter_iff in Hab. unfold Sqlite.matchesOne.
  rewrite !toLower_lowerAscii, Hab, N.eqb_refl, andb_true_r.
  destruct (N.ltb_spec (N_of_ascii b) 0x80) as [_ | Hge]; [| lia].
  destruct (N.ltb_spec (N_of_ascii a) 0x80) as [_ | Hge]; [| lia].
  rewrite orb_true_r. reflexivity.
Qed.

(** An ASCII text that equals the ASCII pattern ignoring case matches it,
    also where the pattern has a wildcard. *)
Lemma patternCompare_literal (middle needle : string) :
  Spec.equalsIgnoringCase middle needle ->
  Vocabulary.asciiText middle = true -> Vocabulary.asciiText needle = true ->
  forall pattern s,
    Sqlite.patternCompare pattern s = true ->
    Sqlite.patternCompare
      (map N_of_ascii (list_ascii_of_string needle) ++ pattern)
      (map N_of_ascii (list_ascii_of_string middle) ++ s) = true.
Proof.
  induction 1 as [| a b m n Hab _ IH]; intros Hm Hn pattern s Hrest;
    [exact Hrest |].
  apply asciiText_String in Hm, Hn.
  destruct Hm as [Ha Hm], Hn as [Hb Hn].
  cbn [list_ascii_of_string map app].
  destruct (N.eqb (N_of_ascii b) 37) eqn:Hpercent.
  - apply N.eqb_eq in Hpercent. rewrite Hpercent.
    apply (patternCompare_percent_more _ [N_of_ascii a]),
      patternCompare_percent_skip, IH; assumption.
  - cbn [Sqlite.patternCompare]. rewrite Hpercent.
    rewrite (matchesOne_sameLetter a b Hab Ha Hb). apply IH; assumption.
Qed.

(** An ASCII column that contains the ASCII query, ignoring case, matches
    the pattern [%query%]. *)
Lemma like_contains (s query : string) :
  Vocabulary.asciiText s = true -> Vocabulary.asciiText query = true ->
  Spec.containsIgnoringCase s query ->
  Sqlite.like (Some s) ("%" ++ query ++ "%") = true.
Proof.
  intros Hs Hquery [before [middle [rest [-> Heq]]]]. unfold Sqlite.like.
  assert (Hpattern : Vocabulary.asciiText ("%" ++ query ++ "%") = true).
  { apply (asciiText_app "%"). split; [reflexivity |].
    apply asciiText_app. split; [exact Hquery | reflexivity]. }
  rewrite (characters_asciiText _ Hpattern), (characters_asciiText _ Hs).
  apply asciiText_app in Hs. destruct Hs as [_ Hs].
  apply asciiText_app in Hs. destruct Hs as [Hmiddle _].
  cbn [append list_ascii_of_string map].
  rewrite !list_ascii_of_string_app, !map_app. cbn [list_ascii_of_string map].
  change (N_of_ascii "%"%char) with 37%N.
  apply patternCompare_percent_more, patternCompare_percent_skip.
  apply (patternCompare_literal middle query Heq Hmiddle Hquery),
    patternCompare_percent_any.
Qed.

(** The pattern [%query%] is two bytes longer than the query. *)
Lemma pattern_length (query : string) :
  String.length ("%" ++ query ++ "%") = S (S (String.length query)).
Proof.
  cbn [append String.length]. f_equal.
  induction query as [| c query IH]; [reflexivity |].
  cbn [append String.length]. f_equal. exact IH.
Qed.

Lemma likePatternTooComplex_iff (query : string) :
  Sqlite.likePatternTooComplex ("%" ++ query ++ "%") = true <->
  50000 < Z.of_nat (String.length query) + 2.
Proof.
  unfold Sqlite.likePatternTooComplex. rewrite pattern_length, N.ltb_lt. lia.
Qed.

(** X16.  For a query of ASCII characters that is at most 49998 bytes long,
    [retrieveKnowledge] without a limit finds every stored item whose
    content is of ASCII characters and contains the query, ignoring the
    case of letters; it does not change the state. *)
Theorem retrieveKnowledge_finds_content (E : Env) (query : string) (limit : Z)
    (w : World) (row : KnowledgeRow) :
  In row (knowledge_items w) ->
  Vocabulary.asciiText query = true ->
  Z.of_nat (String.length query) + 2 <= 50000 ->
  Vocabulary.asciiText (row_content row) = true ->
  Spec.containsIgnoringCase (row_content row) query ->
  limit < 0 ->
  exists items,
    KnowledgeBaseService.retrieveKnowledge E query limit w = (Returned items, w)
    /\ In (KnowledgeBaseService.rowToItem E row) items.
Proof.
  intros Hin Hquery Hshort Hcontent Hcontains Hlimit.
  unfold KnowledgeBaseService.retrieveKnowledge.
  destruct (Sqlite.likePatternTooComplex ("%" ++ query ++ "%")) eqn:Hlong.
  - apply likePatternTooComplex_iff in Hlong. lia.
  - rewrite andb_false_r. eexists. split; [reflexivity |].
    unfold KnowledgeBaseService.limitRows.
    destruct (Z.ltb_spec limit 0) as [_ | Hge]; [| lia].
    apply in_map, filter_In. split; [exact Hin |].
    rewrite (like_contains _ _ Hcontent Hquery Hcontains). reflexivity.
Qed.

Lemma retrieveKnowledge_finds_content_witness :
  exists items,
    KnowledgeBaseService.retrieveKnowledge
      (Scripted.env Scripted.noEmbedding Scripted.answers) "SQLite" (-1)
      (withKnowledge
         [{| row_id := "id-0000"; row_content := "sqlite is file based";
             row_tags := None; row_source := None; row_timestamp := 0 |}]
         emptyWorld)
    = (Returned items,
       withKnowledge
         [{| row_id := "id-0000"; row_content := "sqlite is file based";
             row_tags := None; row_source := None; row_timestamp := 0 |}]
         emptyWorld)
    /\ In {| item_id := "id-0000"; content := "sqlite is file based";
             tags := None; source := None; item_timestamp := 0 |} items.
Proof.
  apply (retrieveKnowledge_finds_content
           (Scripted.env Scripted.noEmbedding Scripted.answers) "SQLite" (-1)
           (withKnowledge
              [{| row_id := "id-0000"; row_content := "sqlite is file based";
                  row_tags := None; row_source := None; row_timestamp := 0 |}]
              emptyWorld)
           {| row_id := "id-0000"; row_content := "sqlite is file based";
              row_tags := None; row_source := None; row_timestamp := 0 |}).
  - left. reflexivity.
  - reflexivity.
  - cbn. lia.
  - reflexivity.
  - exists "", "sqlite", " is file based". split; [reflexivity |].
    apply equalsIgnoringCase_iff. reflexivity.
  - lia.
Defined.

Lemma In_firstn {A : Type} (n : nat) (l : list A) (x : A) :
  In x (firstn n l) -> In x l.
Proof.
  revert l. induction n as [| n IH]; intros [| y l] H; cbn in H; try contradiction.
  destruct H as [-> | H]; [left; reflexivity | right; apply IH, H].
Qed.

(** X17.  [retrieveKnowledge] with a limit that is not negative leaves the
    state as it is.  It resolves when the query is at most 49998 bytes
    long, with at most [limit] items, each read from a row of the table
    whose content or tags text matches the pattern [%query%].  When it
    rejects, the error is SQLite's for a pattern that is too long: the
    query is longer than 49998 bytes, the limit is not 0 and the table is
    not empty. *)
Theorem retrieveKnowledge_bounded (E : Env) (query : string) (limit : Z)
    (w : World) :
  0 <= limit ->
  exists completion,
    KnowledgeBaseService.retrieveKnowledge E query limit w = (completion, w)
    /\ (Z.of_nat (String.length query) + 2 <= 50000 ->
        exists items, completion = Returned items)
    /\ (forall items, completion = Returned items ->
          Z.of_nat (List.length items) <= limit
          /\ forall item, In item items ->
               exists row,
                 In row (knowledge_items w)
                 /\ item = KnowledgeBaseService.rowToItem E row
                 /\ (Sqlite.like (Some (row_content row))
                       ("%" ++ query ++ "%") = true
                     \/ Sqlite.like (row_tags row)
                          ("%" ++ query ++ "%") = true))
    /\ (forall message, completion = Threw message ->
          message = "SQLITE_ERROR: LIKE or GLOB pattern too complex"
          /\ 50000 < Z.of_nat (String.length query) + 2
          /\ limit <> 0 /\ knowledge_items w <> []).
Proof.
  intros Hlimit. unfold KnowledgeBaseService.retrieveKnowledge.
  match goal with |- context [if ?b then _ else _] => destruct b eqn:Htest end.
  - apply andb_true_iff in Htest. destruct Htest as [Htested Hlong].
    apply andb_true_iff in Htested. destruct Htested as [Hzero Hrows].
    apply likePatternTooComplex_iff in Hlong.
    eexists. split; [reflexivity |]. split; [| split].
    + intros Hshort. lia.
    + intros items Hitems. discriminate Hitems.
    + intros message Hmessage. injection Hmessage as <-.
      split; [reflexivity | split; [exact Hlong | split]].
      * intros ->. discriminate Hzero.
      * intros Hempty. rewrite Hempty in Hrows. discriminate Hrows.
  - eexists. split; [reflexivity |]. split; [| split].
    + intros _. eexists. reflexivity.
    + intros items Hitems. injection Hitems as <-.
      unfold KnowledgeBaseService.limitRows.
      destruct (Z.ltb_spec limit 0) as [Hneg | _]; [lia |]. split.
      * rewrite length_map, length_firstn. lia.
      * intros item Hin. apply in_map_iff in Hin.
        destruct Hin as [row [<- Hin]].
        apply In_firstn, filter_In in Hin. destruct Hin as [Hin Hmatch].
        exists row. split; [exact Hin | split; [reflexivity |]].
        apply orb_true_iff. exact Hmatch.
    + intros message Hmessage. discriminate Hmessage.
Qed.

Lemma retrieveKnowledge_bounded_witness :
  exists items,
    KnowledgeBaseService.retrieveKnowledge
      (Scripted.env Scripted.noEmbedding Scripted.answers) "s" 1
      (withKnowledge
         [{| row_id := "id-0000"; row_content := "sqlite"; row_tags := None;
             row_source := None; row_timestamp := 0 |};
          {| row_id := "id-0001"; row_content := "postgres"; row_tags := None;
             row_source := None; row_timestamp := 0 |}]
         emptyWorld)
    = (Returned items,
       withKnowledge
         [{| row_id := "id-0000"; row_content := "sqlite"; row_tags := None;
             row_source := None; row_timestamp := 0 |};
          {| row_id := "id-0001"; row_content := "postgres"; row_tags := None;
             row_source := None; row_timestamp := 0 |}]
         emptyWorld)
    /\ Z.of_nat (List.length items) <= 1.
Proof.
  destruct (retrieveKnowledge_bounded
              (Scripted.env Scripted.noEmbedding Scripted.answers) "s" 1
              (withKnowledge
                 [{| row_id := "id-0000"; row_content := "sqlite";
                     row_tags := None; row_source := None; row_timestamp := 0 |};
                  {| row_id := "id-0001"; row_content := "postgres";
                     row_tags := None; row_source := None; row_timestamp := 0 |}]
                 emptyWorld))
    as [completion [Hget [Hresolves [Hitems _]]]].
  - lia.
  - destruct Hresolves as [items ->]; [cbn; lia |].
    exists items. split; [exact Hget | apply (Hitems items eq_refl)].
Defined.

(** A query of 49999 bytes is rejected as soon as the table has a row, and
    answered with no item when the limit is 0 or the table is empty. *)
Example retrieveKnowledge_rejects_long_query :
  fst (KnowledgeBaseService.retrieveKnowledge
         (Scripted.env Scripted.noEmbedding Scripted.answers)
         Scripted.longQuery 10
         (withKnowledge
            [{| row_id := "id-0000"; row_content := "sqlite"; row_tags := None;
                row_source := None; row_timestamp := 0 |}]
            emptyWorld))
  = Threw "SQLITE_ERROR: LIKE or GLOB pattern too complex"
  /\ fst (KnowledgeBaseService.retrieveKnowledge
            (Scripted.env Scripted.noEmbedding Scripted.answers)
            Scripted.longQuery 0
            (withKnowledge
               [{| row_id := "id-0000"; row_content := "sqlite";
                   row_tags := None; row_source := None; row_timestamp := 0 |}]
               emptyWorld))
     = Returned []
  /\ fst (KnowledgeBaseService.retrieveKnowledge
            (Scripted.env Scripted.noEmbedding Scripted.answers)
            Scripted.longQuery 10 emptyWorld)
     = Returned [].
Proof. repeat split; vm_compute; reflexivity. Qed.

(** [_] in a pattern stands for one character, of one byte or of several:
    the two bytes of U+00E9 are one character.  A letter outside ASCII does
    not match its other case, and what follows a NUL byte is not
    compared. *)
Example like_reads_characters :
  Sqlite.like (Some Scripted.aeb) "%a_b%" = true
  /\ Sqlite.like (Some Scripted.aeb) "%a__b%" = false
  /\ Sqlite.like (Some Scripted.aeb) Scripted.aeb = true
  /\ Sqlite.like (Some Scripted.aeb) Scripted.aEb = false
  /\ Sqlite.like (Some "CAFE") "%af%" = true
  /\ Sqlite.like (Some (String "a" (String Ascii.zero "b"))) "a" = true.
Proof. repeat split; vm_compute; reflexivity. Qed.

Example retrieveKnowledge_reads_characters :
  fst (KnowledgeBaseService.retrieveKnowledge
         (Scripted.env Scripted.noEmbedding Scripted.answers) "a_b" 10
         (withKnowledge [Scripted.aebRow] emptyWorld))
  = Returned [KnowledgeBaseService.rowToItem
                (Scripted.env Scripted.noEmbedding Scripted.answers)
                Scripted.aebRow]
  /\ fst (KnowledgeBaseService.retrieveKnowledge
            (Scripted.env Scripted.noEmbedding Scripted.answers) "a__b" 10
            (withKnowledge [Scripted.aebRow] emptyWorld))
     = Returned [].
Proof. split; vm_compute; reflexivity. Qed.

(** X18.  [updateKnowledge] resolves whether or not the id is in the table.  The
    rows keep their ids and their order; a row of the item's id gets the
    item's content and tags and the time of the update; a table without
    that id is left as it is. *)
Theorem updateKnowledge_keeps_ids (E : Env) (item : KnowledgeItem) (w : World) :
  exists w',
    KnowledgeBaseService.updateKnowledge E item w = (Returned tt, w')
    /\ map row_id (knowledge_items w') = map row_id (knowledge_items w)
    /\ (forall row, In row (knowledge_items w') -> row_id row = item_id item ->
          row_content row = content item
          /\ row_tags row = option_map (stringifyTags E) (tags item)
          /\ row_timestamp row = clock E (tick w))
    /\ ((forall row, In row (knowledge_items w) -> row_id row <> item_id item) ->
        knowledge_items w' = knowledge_items w).
Proof.
  unfold KnowledgeBaseService.updateKnowledge, bind, external.
  eexists. split; [reflexivity |].
  cbn [knowledge_items withKnowledge tick]. split; [| split].
  - induction (knowledge_items w) as [| row rows IH]; [reflexivity |].
    cbn [map]. rewrite IH.
    destruct (String.eqb (row_id row) (item_id item)); reflexivity.
  - intros row Hin Hid. apply in_map_iff in Hin.
    destruct Hin as [old [Hrow _]].
    destruct (String.eqb_spec (row_id old) (item_id item)) as [_ | Hneq].
    + subst row. cbn. auto.
    + subst row. destruct (Hneq Hid).
  - intros Hunknown. induction (knowledge_items w) as [| row rows IH];
      [reflexivity |].
    cbn [map]. rewrite IH by (intros r Hr; apply Hunknown; right; exact Hr).
    destruct (String.eqb_spec (row_id row) (item_id item)) as [Heq | _];
      [| reflexivity].
    destruct (Hunknown row (or_introl eq_refl) Heq).
Qed.

Lemma updateKnowledge_keeps_ids_witness :
  exists w',
    KnowledgeBaseService.updateKnowledge
      (Scripted.env Scripted.noEmbedding Scripted.answers)
      {| item_id := "missing"; content := "new"; tags := None; source := None;
         item_timestamp := 0 |}
      (withKnowledge
         [{| row_id := "id-0000"; row_content := "sqlite"; row_tags := None;
             row_source := None; row_timestamp := 0 |}]
         emptyWorld) = (Returned tt, w')
    /\ knowledge_items w'
       = [{| row_id := "id-0000"; row_content := "sqlite"; row_tags := None;
             row_source := None; row_timestamp := 0 |}].
Proof.
  destruct (updateKnowledge_keeps_ids
              (Scripted.env Scripted.noEmbedding Scripted.answers)
              {| item_id := "missing"; content := "new"; tags := None;
                 source := None; item_timestamp := 0 |}
              (withKnowledge
                 [{| row_id := "id-0000"; row_content := "sqlite";
                     row_tags := None; row_source := None; row_timestamp := 0 |}]
                 emptyWorld))
    as [w' [Hupdate [_ [_ Hunknown]]]].
  exists w'. split; [exact Hupdate |].
  apply Hunknown. intros row [<- | []]. discriminate.
Defined.

(** X19.  [deleteKnowledge] resolves whether or not the id is in the table.
    Afterwards the table holds the rows of the other ids, and no
    [retrieveKnowledge] returns an item of the deleted id. *)
Theorem deleteKnowledge_removes_item (E : Env) (id : string) (w : World) :
  exists w',
    KnowledgeBaseService.deleteKnowledge id w = (Returned tt, w')
    /\ (forall row,
          In row (knowledge_items w')
          <-> In row (knowledge_items w) /\ row_id row <> id)
    /\ forall query limit item,
         (exists items,
            fst (KnowledgeBaseService.retrieveKnowledge E query limit w')
            = Returned items /\ In item items) ->
         item_id item <> id.
Proof.
  unfold KnowledgeBaseService.deleteKnowledge. eexists.
  split; [reflexivity |]. cbn [knowledge_items withKnowledge].
  assert (Hrows : forall row,
            In row (filter (fun r => negb (String.eqb (row_id r) id))
                           (knowledge_items w))
            <-> In row (knowledge_items w) /\ row_id row <> id).
  { intros row. rewrite filter_In. split; intros [Hin Hid]; split; auto.
    - intros Heq. rewrite Heq, String.eqb_refl in Hid. discriminate Hid.
    - destruct (String.eqb_spec (row_id row) id) as [Heq | _];
        [destruct (Hid Heq) | reflexivity]. }
  split; [exact Hrows |].
  intros query limit item [items [Hget Hin]].
  unfold KnowledgeBaseService.retrieveKnowledge in Hget.
  match type of Hget with
  | context [if ?b then _ else _] => destruct b
  end; [discriminate Hget |].
  cbn [fst knowledge_items withKnowledge] in Hget. injection Hget as <-.
  apply in_map_iff in Hin. destruct Hin as [row [<- Hin]].
  cbn [item_id KnowledgeBaseService.rowToItem].
  assert (Hfiltered : In row (filter (fun r => negb (String.eqb (row_id r) id))
                                     (knowledge_items w))).
  { unfold KnowledgeBaseService.limitRows in Hin.
    destruct (limit <? 0); [| apply In_firstn in Hin];
      apply filter_In in Hin; apply Hin. }
  apply Hrows in Hfiltered. apply Hfiltered.
Qed.

Lemma deleteKnowledge_removes_item_witness :
  exists w',
    KnowledgeBaseService.deleteKnowledge "id-0000"
      (withKnowledge
         [{| row_id := "id-0000"; row_content := "sqlite"; row_tags := None;
             row_source := None; row_timestamp := 0 |};
          {| row_id := "id-0001"; row_content := "postgres"; row_tags := None;
             row_source := None; row_timestamp := 0 |}]
         emptyWorld) = (Returned tt, w')
    /\ forall item,
         (exists items,
            fst (KnowledgeBaseService.retrieveKnowledge
                   (Scripted.env Scripted.noEmbedding Scripted.answers)
                   "s" 10 w')
            = Returned items /\ In item items) ->
         item_id item <> "id-0000".
Proof.
  destruct (deleteKnowledge_removes_item
              (Scripted.env Scripted.noEmbedding Scripted.answers) "id-0000"
              (withKnowledge
                 [{| row_id := "id-0000"; row_content := "sqlite";
                     row_tags := None; row_source := None; row_timestamp := 0 |};
                  {| row_id := "id-0001"; row_content := "postgres";
                     row_tags := None; row_source := None; row_timestamp := 0 |}]
                 emptyWorld))
    as [w' [Hdelete [_ Hretrieve]]].
  exists w'. split; [exact Hdelete |].
  intros item. apply Hretrieve.
Defined.

(** ** LearningEngineService *)


Section Tally.

Import LearningEngineReports.

(** The counts of a tally after the keys [seen]: every key that was seen
    has one entry, with the number of times it was seen. *)
Definition tallied (m : CountMap) (seen : list string) : Prop :=
  NoDup (map fst m)
  /\ forall key,
       mapGet key m
       = if Nat.eqb (count_occ string_dec seen key) 0 then None
         else Some (count_occ string_dec seen key).

Lemma mapGet_mapSet_same (key : string) (value : nat) (m : CountMap) :
  mapGet key (mapSet key value m) = Some value.
Proof.
  induction m as [| [k v] rest IH]; cbn [mapSet mapGet].
  - rewrite String.eqb_refl. reflexivity.
  - destruct (String.eqb k key) eqn:Hk; cbn [mapGet]; rewrite Hk;
      [reflexivity | exact IH].
Qed.

Lemma mapGet_mapSet_other (key key' : string) (value : nat) (m : CountMap) :
  key' <> key -> mapGet key' (mapSet key value m) = mapGet key' m.
Proof.
  intros Hneq. induction m as [| [k v] rest IH]; cbn [mapSet mapGet].
  - destruct (String.eqb_spec key key') as [Heq | _];
      [destruct (Hneq (eq_sym Heq)) | reflexivity].
  - destruct (String.eqb_spec k key) as [-> | Hk]; cbn [mapGet].
    + destruct (String.eqb_spec key key') as [Heq | _];
        [destruct (Hneq (eq_sym Heq)) | reflexivity].
    + rewrite IH. reflexivity.
Qed.

Lemma mapGet_None_keys (key : string) (m : CountMap) :
  mapGet key m = None <-> ~ In key (map fst m).
Proof.
  induction m as [| [k v] rest IH]; cbn [mapGet map fst In]; [tauto |].
  destruct (String.eqb_spec k key) as [-> | Hk].
  - split; [discriminate | intros H; exfalso; apply H; left; reflexivity].
  - rewrite IH. tauto.
Qed.

Lemma mapSet_keys (key : string) (value : nat) (m : CountMap) :
  map fst (mapSet key value m)
  = match mapGet key m with
    | Some _ => map fst m
    | None => (map fst m ++ [key])%list
    end.
Proof.
  induction m as [| [k v] rest IH]; cbn [mapSet mapGet map fst]; [reflexivity |].
  destruct (String.eqb k key); cbn [map fst]; [reflexivity |].
  rewrite IH. destruct (mapGet key rest); reflexivity.
Qed.

Lemma tallied_increment (m : CountMap) (seen : list string) (key : string) :
  tallied m seen -> tallied (increment key m) (seen ++ [key]).
Proof.
  intros [Hnodup Hget]. unfold increment. split.
  - rewrite mapSet_keys. destruct (mapGet key m) eqn:Hk; [exact Hnodup |].
    apply NoDup_app; [exact Hnodup | repeat constructor; intros [] |].
    intros k Hin [<- | []]. apply mapGet_None_keys in Hk. exact (Hk Hin).
  - intros k. rewrite count_occ_app. cbn [count_occ].
    destruct (string_dec key k) as [<- | Hneq].
    + rewrite mapGet_mapSet_same, (Hget key).
      destruct (count_occ string_dec seen key) as [| n]; cbn.
      * reflexivity.
      * replace (n + 1)%nat with (S n) by lia. cbn.
        replace (n + 1)%nat with (S n) by lia. reflexivity.
    + rewrite mapGet_mapSet_other by (intros Heq; apply Hneq; symmetry; exact Heq).
      rewrite Nat.add_0_r. apply Hget.
Qed.

Lemma tallied_fold (keys : list string) :
  forall m seen,
    tallied m seen ->
    tallied (fold_left (fun m' key => increment key m') keys m) (seen ++ keys).
Proof.
  induction keys as [| key rest IH]; intros m seen Hm; cbn [fold_left].
  - rewrite app_nil_r. exact Hm.
  - replace (seen ++ key :: rest)%list with ((seen ++ [key]) ++ rest)%list
      by (rewrite <- app_assoc; reflexivity).
    apply IH, tallied_increment, Hm.
Qed.

Lemma tallied_empty : tallied [] [].
Proof. split; [constructor | reflexivity]. Qed.

(** Under distinct keys, the entries are what [get] returns. *)
Lemma mapGet_In (m : CountMap) (key : string) (n : nat) :
  NoDup (map fst m) -> (mapGet key m = Some n <-> In (key, n) m).
Proof.
  induction m as [| [k v] rest IH]; cbn [mapGet map fst In]; intros Hnodup.
  - split; [discriminate | contradiction].
  - inversion Hnodup as [| k0 ks Hnotin Hrest]; subst.
    destruct (String.eqb_spec k key) as [-> | Hk].
    + split.
      * intros H. injection H as ->. left. reflexivity.
      * intros [H | H]; [injection H as ->; reflexivity |].
        exfalso. apply Hnotin. apply (in_map fst) in H. exact H.
    + rewrite (IH Hrest). split; [tauto |].
      intros [H | H]; [injection H as -> _; destruct (Hk eq_refl) | exact H].
Qed.


Lemma toolUsage_fold (rows : list ExecutionLog) :
  forall m,
    fold_left
      (fun m' row =>
         match toolCalls row with
         | Some calls => fold_left (fun m'' call => increment (tool call) m'') calls m'
         | None => m'
         end) rows m
    = fold_left (fun m' key => increment key m') (Vocabulary.toolsCalled rows) m.
Proof.
  induction rows as [| row rest IH]; intros m; cbn [fold_left Vocabulary.toolsCalled flat_map];
    [reflexivity |].
  rewrite fold_left_app, IH. f_equal.
  destruct (toolCalls row) as [calls |]; [| reflexivity].
  clear. revert m. induction calls as [| call calls IHc]; intros m;
    cbn [fold_left map]; [reflexivity | apply IHc].
Qed.

Lemma insertByCount_Permutation (entry : string * nat) (sorted : CountMap) :
  Permutation (insertByCount entry sorted) (entry :: sorted).
Proof.
  induction sorted as [| other rest IH]; cbn [insertByCount]; [reflexivity |].
  destruct (Nat.leb (snd other) (snd entry)); [reflexivity |].
  rewrite IH. apply perm_swap.
Qed.

Lemma sortByCount_Permutation (entries : CountMap) :
  Permutation (sortByCount entries) entries.
Proof.
  induction entries as [| entry rest IH]; cbn [sortByCount]; [reflexivity |].
  rewrite insertByCount_Permutation, IH. reflexivity.
Qed.

Lemma insertByCount_descending (entry : string * nat) (sorted : CountMap) :
  Vocabulary.descending sorted ->
  Vocabulary.descending (insertByCount entry sorted).
Proof.
  unfold Vocabulary.descending.
  induction sorted as [| other rest IH]; intros Hsorted; cbn [insertByCount].
  - repeat constructor.
  - inversion Hsorted as [| o r Hrest Hall]; subst.
    destruct (Nat.leb_spec (snd other) (snd entry)) as [Hle | Hgt].
    + constructor; [exact Hsorted |]. constructor; [exact Hle |].
      apply (Forall_impl _ (P := fun b => (snd b <= snd other)%nat));
        [intros b Hb; lia | exact Hall].
    + constructor; [apply IH, Hrest |].
      eapply Permutation_Forall;
        [symmetry; apply insertByCount_Permutation |].
      constructor; [lia | exact Hall].
Qed.

Lemma sortByCount_descending (entries : CountMap) :
  Vocabulary.descending (sortByCount entries).
Proof.
  induction entries as [| entry rest IH]; cbn [sortByCount].
  - constructor.
  - apply insertByCount_descending, IH.
Qed.

End Tally.

Lemma tallied_entries (m : LearningEngineReports.CountMap) (seen : list string) :
  tallied m seen ->
  forall key n,
    In (key, n) m <-> n = count_occ string_dec seen key /\ (0 < n)%nat.
Proof.
  intros [Hnodup Hget] key n. rewrite <- (mapGet_In m key n Hnodup), (Hget key).
  destruct (count_occ string_dec seen key) as [| c]; cbn.
  - split; [discriminate | intros [-> H]; lia].
  - split; [intros H; injection H as <-; split; [reflexivity | lia]
           | intros [-> _]; reflexivity].
Qed.



(** X22.  [suggestToolUsagePatterns] does not change the state.  Without a
    successful row that has a tool-call list it returns the one sentence
    'No successful tool usage recorded yet.'; otherwise it returns one
    sentence per distinct tool called by those rows, with the number of its
    calls, in descending order of that number (so none at all when every
    such list is empty). *)
Theorem suggestToolUsagePatterns_ranked (w : World) :
  exists result,
    LearningEngineReports.suggestToolUsagePatterns w = (Returned result, w)
    /\ (filter LearningEngineReports.isSuccessWithToolCalls (execution_logs w)
        = [] ->
        result = ["No successful tool usage recorded yet."])
    /\ (filter LearningEngineReports.isSuccessWithToolCalls (execution_logs w)
        <> [] ->
        exists ranked,
          result = map LearningEngineReports.usage ranked
          /\ Vocabulary.descending ranked
          /\ NoDup (map fst ranked)
          /\ forall name n,
               In (name, n) ranked
               <-> n = count_occ string_dec
                         (Vocabulary.toolsCalled
                            (filter LearningEngineReports.isSuccessWithToolCalls
                                    (execution_logs w))) name
                   /\ (0 < n)%nat).
Proof.
  unfold LearningEngineReports.suggestToolUsagePatterns.
  destruct (filter LearningEngineReports.isSuccessWithToolCalls (execution_logs w))
    as [| first rest] eqn:Hrows.
  - eexists. split; [reflexivity |].
    split; [reflexivity | intros H; destruct (H eq_refl)].
  - pose proof (tallied_fold (Vocabulary.toolsCalled (first :: rest)) [] []
                  tallied_empty) as Htally.
    rewrite <- toolUsage_fold in Htally. cbn [app] in Htally.
    fold (LearningEngineReports.toolUsage (first :: rest)) in Htally.
    pose proof (tallied_entries _ _ Htally) as Hentries.
    pose proof (sortByCount_Permutation
                  (LearningEngineReports.toolUsage (first :: rest))) as Hperm.
    eexists. split; [reflexivity |]. split; [discriminate |].
    intros _.
    exists (LearningEngineReports.sortByCount
              (LearningEngineReports.toolUsage (first :: rest))).
    split; [reflexivity |]. split; [apply sortByCount_descending |]. split.
    + apply (Permutation_NoDup (l := map fst
                                       (LearningEngineReports.toolUsage
                                          (first :: rest))));
        [symmetry; apply Permutation_map, Hperm | apply Htally].
    + intros name n. rewrite <- Hentries. split; intros Hin.
      * apply (Permutation_in _ Hperm), Hin.
      * apply (Permutation_in _ (Permutation_sym Hperm)), Hin.
Qed.

Lemma suggestToolUsagePatterns_ranked_witness :
  exists result,
    LearningEngineReports.suggestToolUsagePatterns
      (withLogs
         [{| log_id := "id-0000"; questId := "quest-0"; level := "atomic";
             input := ""; output := ""; durationMs := 1;
             log_status := success; log_timestamp := 0;
             toolCalls := Some [{| tool := "runShellCommand"; args := "" |};
                                {| tool := "writeFile"; args := "" |};
                                {| tool := "writeFile"; args := "" |}];
             log_error := None |}]
         emptyWorld)
    = (Returned result,
       withLogs
         [{| log_id := "id-0000"; questId := "quest-0"; level := "atomic";
             input := ""; output := ""; durationMs := 1;
             log_status := success; log_timestamp := 0;
             toolCalls := Some [{| tool := "runShellCommand"; args := "" |};
                                {| tool := "writeFile"; args := "" |};
                                {| tool := "writeFile"; args := "" |}];
             log_error := None |}]
         emptyWorld)
    /\ result = ["Tool 'writeFile' was used successfully 2 times.";
                 "Tool 'runShellCommand' was used successfully 1 times."].
Proof.
  destruct (suggestToolUsagePatterns_ranked
              (withLogs
                 [{| log_id := "id-0000"; questId := "quest-0"; level := "atomic";
                     input := ""; output := ""; durationMs := 1;
                     log_status := success; log_timestamp := 0;
                     toolCalls := Some [{| tool := "runShellCommand"; args := "" |};
                                        {| tool := "writeFile"; args := "" |};
                                        {| tool := "writeFile"; args := "" |}];
                     log_error := None |}]
                 emptyWorld))
    as [result [Hrun _]].
  exists result. split; [exact Hrun |].
  vm_compute in Hrun. injection Hrun as <-. reflexivity.
Defined.
